(** * DC Audit Report Generator: a shallow embedding of [app.py]

    The development follows the data pipeline of the program:
    validation, normalisation (brand extraction, quantity coercion),
    aggregation (group, sum, round, sort), filtering and the construction
    of the list of flowables that is handed to the PDF layout engine.

    Modelling conventions.
    - A Python [str] is a [string]; every [ascii] stands for the code point
      of the same number (0..255).  Python compares strings by code point,
      which is [String.compare].
    - The columns Distru Product, Category and Distru Batch Number are text
      columns (dtype object): a cell is an [option string], [None] being
      the missing marker NaN.  A key column in which every field is a
      number, which pandas reads as a numeric column and orders by value,
      is outside the model.  The column Available Quantity holds numbers
      or strings.
    - A float is a [pyfloat]: a binary64 number, carried as the rational
      it denotes, or one of the three non-finite values.  Every conversion
      and every addition rounds to the nearest binary64 number, ties to the
      even mantissa, and overflows to an infinity; the two zeros are not
      told apart.  The integers of the audit table are int64.
    - A Python exception is a value [Raise e] of the type [result].
    - The system clock is part of an explicit [world]; a function that
      reads it is a state-passing function of the type [IO].
    - The PDF bytes are produced from a list of flowables by the layout
      engine; the model stops at that list. *)

From Stdlib Require Import List String Ascii Bool Arith ZArith QArith Qround Qabs.
From Stdlib Require Import Qpower Qreduction.
From Stdlib Require Import Lia Lqa.
From Stdlib Require Import Permutation Sorted.
Import ListNotations.

Local Open Scope string_scope.
Local Open Scope list_scope.
Local Open Scope nat_scope.

(* ================================================================== *)
(** * Python strings *)

Module PyStr.

(** [str.isspace] on one character of the range 0..255. *)
Definition isspace (c : ascii) : bool :=
  let n := nat_of_ascii c in
  ((9 <=? n) && (n <=? 13)) || ((28 <=? n) && (n <=? 32))
  || (n =? 133) || (n =? 160).

Fixpoint lstrip (s : string) : string :=
  match s with
  | EmptyString => EmptyString
  | String c s' => if isspace c then lstrip s' else s
  end.

Fixpoint rstrip (s : string) : string :=
  match s with
  | EmptyString => EmptyString
  | String c s' =>
      let r := rstrip s' in
      if isspace c && String.eqb r "" then EmptyString else String c r
  end.

(** [s.strip()] *)
Definition strip (s : string) : string := rstrip (lstrip s).

(** [sub in s] *)
Fixpoint contains (sub s : string) : bool :=
  match s with
  | EmptyString => prefix sub EmptyString
  | String _ s' => prefix sub s || contains sub s'
  end.

Fixpoint rev_string (acc : list ascii) (out : string) : string :=
  match acc with
  | [] => out
  | c :: acc' => rev_string acc' (String c out)
  end.

(** The scanning loop of [s.split(sep)] for a non-empty [sep]: [cur] holds
    the characters of the current piece in reverse, [skip] counts the
    characters of a matched separator that are still to be passed. *)
Fixpoint split_go (sep : string) (skip : nat) (cur : list ascii) (s : string)
  : list string :=
  match s with
  | EmptyString => [rev_string cur EmptyString]
  | String c s' =>
      match skip with
      | S k => split_go sep k cur s'
      | O =>
          if prefix sep s
          then rev_string cur EmptyString
                 :: split_go sep (String.length sep - 1) [] s'
          else split_go sep 0 (c :: cur) s'
      end
  end.

(** [s.split(sep)] *)
Definition split (sep s : string) : list string := split_go sep 0 [] s.

(** [sep.join(l)] *)
Definition join (sep : string) (l : list string) : string := concat sep l.

Fixpoint repeat_char (c : ascii) (n : nat) : string :=
  match n with
  | O => EmptyString
  | S k => String c (repeat_char c k)
  end.

Definition digit_char (d : nat) : ascii := ascii_of_nat (48 + d).

(** Decimal digits of [n], most significant first; [fuel] bounds the
    number of digits. *)
Fixpoint nat_digits (fuel n : nat) (acc : string) : string :=
  match fuel with
  | O => acc
  | S f =>
      let acc' := String (digit_char (n mod 10)) acc in
      if n / 10 =? 0 then acc' else nat_digits f (n / 10) acc'
  end.

(** [str(n)] for a non-negative [int] *)
Definition of_nat (n : nat) : string := nat_digits (S n) n EmptyString.

(** [str(z)] for an [int] *)
Definition of_Z (z : Z) : string :=
  match z with
  | Zneg p => String "-"%char (of_nat (Pos.to_nat p))
  | _ => of_nat (Z.to_nat z)
  end.

(** Two-digit, zero-padded rendering, as [%d], [%I] and [%M] of strftime. *)
Definition two_digits (n : nat) : string :=
  if n <? 10 then String "0"%char (of_nat n) else of_nat n.

End PyStr.

(* ================================================================== *)
(** * Python floats and [float(str)] *)

Inductive pyfloat : Type :=
| Fin (q : Q)
| PInf
| NInf
| FNaN.

Module PyFloat.

Definition isnan (f : pyfloat) : bool :=
  match f with FNaN => true | _ => false end.

Definition zero : pyfloat := Fin 0%Q.

(** Round to the nearest integer, ties to the even one ([numpy.rint]). *)
Definition round_half_even (q : Q) : Z :=
  let f := Qfloor q in
  match Qcompare (q - inject_Z f)%Q (1 # 2)%Q with
  | Lt => f
  | Gt => (f + 1)%Z
  | Eq => if Z.even f then f else (f + 1)%Z
  end.

Definition pow2 (z : Z) : Q := Qpower (2 # 1) z.

(** The binary exponent of a positive number: the [e] with
    [2^e <= q < 2^(e+1)]. *)
Definition ilog2 (q : Q) : Z :=
  let k := (Z.log2 (Qnum q) - Z.log2 (Zpos (Qden q)))%Z in
  if Qle_bool (pow2 k) q then k else (k - 1)%Z.

(** The exponent of the last place of the binary64 numbers around [a]:
    53 bits of mantissa, the least normal exponent being -1022. *)
Definition ulp_exponent (a : Q) : Z := (Z.max (ilog2 a) (-1022) - 52)%Z.

(** The mantissa of the nearest binary64 number, ties to even. *)
Definition mantissa (a : Q) : Z :=
  round_half_even (a * pow2 (- ulp_exponent a)).

(** The nearest number of the form [m * 2^t] to a positive [a]. *)
Definition round_abs (a : Q) : Q :=
  (inject_Z (mantissa a) * pow2 (ulp_exponent a))%Q.

(** The binary64 number nearest to a rational; beyond the largest finite
    number the result is an infinity. *)
Definition round64 (x : Q) : pyfloat :=
  let q := Qred x in
  match Qcompare q 0 with
  | Eq => Fin 0
  | Gt => let v := round_abs q in
          if Qle_bool (pow2 1024) v then PInf else Fin (Qred v)
  | Lt => let v := round_abs (- q) in
          if Qle_bool (pow2 1024) v then NInf else Fin (Qred (- v))
  end.

(** Addition of two floats. *)
Definition add (x y : pyfloat) : pyfloat :=
  match x, y with
  | FNaN, _ | _, FNaN => FNaN
  | PInf, NInf | NInf, PInf => FNaN
  | PInf, _ | _, PInf => PInf
  | NInf, _ | _, NInf => NInf
  | Fin a, Fin b => round64 (a + b)
  end.

Definition neg (x : pyfloat) : pyfloat :=
  match x with
  | Fin a => Fin (- a)%Q
  | PInf => NInf
  | NInf => PInf
  | FNaN => FNaN
  end.

Definition sub (x y : pyfloat) : pyfloat := add x (neg y).

Definition is_digit (c : ascii) : bool :=
  let n := nat_of_ascii c in (48 <=? n) && (n <=? 57).

(** The characters [float] passes over at both ends of its argument. *)
Definition is_space (c : ascii) : bool :=
  let n := nat_of_ascii c in
  ((9 <=? n) && (n <=? 13)) || (n =? 32) || (n =? 133) || (n =? 160).

(** Underscores are accepted between two digits only and are dropped. *)
Fixpoint drop_underscores (prev : ascii) (l : list ascii)
  : option (list ascii) :=
  match l with
  | [] => if Ascii.eqb prev "_"%char then None else Some []
  | c :: l' =>
      if Ascii.eqb c "_"%char
      then if is_digit prev then drop_underscores c l' else None
      else if Ascii.eqb prev "_"%char && negb (is_digit c) then None
           else option_map (cons c) (drop_underscores c l')
  end.

Fixpoint lskip (l : list ascii) : list ascii :=
  match l with
  | c :: l' => if is_space c then lskip l' else l
  | [] => []
  end.

Definition trim (l : list ascii) : list ascii :=
  rev (lskip (rev (lskip l))).

Fixpoint span_digits (l : list ascii) : list ascii * list ascii :=
  match l with
  | c :: l' =>
      if is_digit c
      then let (d, r) := span_digits l' in (c :: d, r)
      else ([], l)
  | [] => ([], [])
  end.

Definition digits_value (d : list ascii) : Z :=
  fold_left (fun acc c => (10 * acc + Z.of_nat (nat_of_ascii c - 48))%Z) d 0%Z.

(** ASCII lower-casing, for the case-insensitive words inf and nan. *)
Definition lower (c : ascii) : ascii :=
  let n := nat_of_ascii c in
  if (65 <=? n) && (n <=? 90) then ascii_of_nat (n + 32) else c.

Definition sign_of (l : list ascii) : bool * list ascii :=
  match l with
  | "-"%char :: l' => (true, l')
  | "+"%char :: l' => (false, l')
  | _ => (false, l)
  end.

(** mantissa * 10^exponent *)
Definition scale (m e : Z) : Q := (inject_Z m * Qpower (10 # 1) e)%Q.

(** The exact value of an unsigned decimal literal: digits, an optional
    fraction, an optional exponent; the whole input must be consumed. *)
Definition parse_decimal (l : list ascii) : option Q :=
  let (ip, r1) := span_digits l in
  let (fp, r2) :=
    match r1 with
    | "."%char :: t => span_digits t
    | _ => ([], r1)
    end in
  match ip ++ fp with
  | [] => None
  | m =>
      let mant := digits_value m in
      let k := Z.of_nat (List.length fp) in
      match r2 with
      | [] => Some (scale mant (- k)%Z)
      | e :: t =>
          if Ascii.eqb (lower e) "e"%char
          then let (sg, t') := sign_of t in
               let (ed, r3) := span_digits t' in
               match ed, r3 with
               | _ :: _, [] =>
                   let ex := digits_value ed in
                   Some (scale mant ((if sg then - ex else ex) - k)%Z)
               | _, _ => None
               end
          else None
      end
  end.

Definition parse_unsigned (l : list ascii) : option pyfloat :=
  let w := string_of_list_ascii (map lower l) in
  if String.eqb w "inf" || String.eqb w "infinity" then Some PInf
  else if String.eqb w "nan" then Some FNaN
  else option_map round64 (parse_decimal l).

(** [float(s)] for a [str]: the binary64 number nearest to the literal;
    [None] stands for the [ValueError]. *)
Definition of_string (s : string) : option pyfloat :=
  match drop_underscores "000"%char (list_ascii_of_string s) with
  | None => None
  | Some l =>
      let (sg, body) := sign_of (trim l) in
      option_map (fun f => if sg then neg f else f) (parse_unsigned body)
  end.

End PyFloat.

(* ================================================================== *)
(** * Exceptions and the clock *)

Inductive exn : Type :=
| TypeError            (* [sorted] compared a str with a float *)
| IntCastingNaNError.  (* [astype(int)] met a non-finite value *)

Inductive result (A : Type) : Type :=
| Ok (a : A)
| Raise (e : exn).
Arguments Ok {A} a.
Arguments Raise {A} e.

Definition rbind {A B} (r : result A) (k : A -> result B) : result B :=
  match r with
  | Ok a => k a
  | Raise e => Raise e
  end.

Definition rmap {A B} (f : A -> B) (r : result A) : result B :=
  rbind r (fun a => Ok (f a)).

Fixpoint rmapM {A B} (f : A -> result B) (l : list A) : result (list B) :=
  match l with
  | [] => Ok []
  | x :: l' => rbind (f x) (fun y => rbind (rmapM f l') (fun ys => Ok (y :: ys)))
  end.

(** A [datetime]; only the fields the program formats are kept. *)
Record datetime : Type := {
  year : nat;
  month : nat;   (* 1..12 *)
  day : nat;     (* 1..31 *)
  hour : nat;    (* 0..23 *)
  minute : nat   (* 0..59 *)
}.

(** The state of the outside world the program observes: the system clock,
    as the sequence of the values it returns, and the number of readings
    taken so far. *)
Record world : Type := {
  clock : nat -> datetime;
  reads : nat
}.

(** Computations that may read the clock. *)
Definition IO (A : Type) : Type := world -> A * world.

Definition ret {A} (a : A) : IO A := fun w => (a, w).

Definition bind {A B} (m : IO A) (k : A -> IO B) : IO B :=
  fun w => let (a, w') := m w in k a w'.

Notation "x <- m ;; k" := (bind m (fun x => k))
  (at level 61, m at next level, right associativity).

(** [datetime.now()] *)
Definition datetime_now : IO datetime :=
  fun w => (clock w (reads w), {| clock := clock w; reads := S (reads w) |}).

Definition month_names : list string :=
  ["January"; "February"; "March"; "April"; "May"; "June"; "July";
   "August"; "September"; "October"; "November"; "December"].

(** [t.strftime("%B %d, %Y")], for a year of four digits *)
Definition strftime_date (t : datetime) : string :=
  (nth (month t - 1) month_names "" ++ " " ++ PyStr.two_digits (day t)
   ++ ", " ++ PyStr.of_nat (year t))%string.

(** [t.strftime("%I:%M %p")] *)
Definition strftime_time (t : datetime) : string :=
  let h := hour t mod 12 in
  let h12 := if h =? 0 then 12 else h in
  let ampm := if hour t <? 12 then "AM" else "PM" in
  (PyStr.two_digits h12 ++ ":" ++ PyStr.two_digits (minute t)
   ++ " " ++ ampm)%string.

(* ================================================================== *)
(** * Data model *)

(** A cell of a text column: a str, or NaN. *)
Definition cell : Type := option string.

(** A cell of the column Available Quantity: a float when pandas read the
    column as numeric (NaN where the field is missing), else a str or NaN. *)
Inductive value : Type :=
| VFloat (f : pyfloat)
| VStr (s : string).

(** [pd.isna(x)] / [pd.notna(x)] *)
Definition isna_cell (c : cell) : bool :=
  match c with None => true | Some _ => false end.

Definition notna (v : value) : bool :=
  match v with
  | VFloat f => negb (PyFloat.isnan f)
  | VStr _ => true
  end.

(** [str(x)] of a text cell *)
Definition str_cell (c : cell) : string :=
  match c with Some s => s | None => "nan" end.

(** The raw table as the validator sees it: the header and the rows. *)
Record dataframe : Type := {
  df_columns : list string;
  df_rows : list (list value)
}.

(** [df.empty]: one of the two axes has length 0. *)
Definition df_empty (df : dataframe) : bool :=
  (List.length (df_columns df) =? 0) || (List.length (df_rows df) =? 0).

(** One row of the packages table, restricted to the four columns that the
    processing reads. *)
Record package : Type := {
  pkg_Product : cell;      (* 'Distru Product' *)
  pkg_Category : cell;     (* 'Category' *)
  pkg_Batch : cell;        (* 'Distru Batch Number' *)
  pkg_Quantity : value     (* 'Available Quantity' *)
}.

(** The grouping key (Category, Brand, Distru Product, Distru Batch Number). *)
Definition key : Type := cell * string * cell * cell.

(** One row of the audit table. *)
Record audit_line : Type := {
  Category : cell;
  Brand : string;
  Distru_Product : cell;
  Distru_Batch_Number : cell;
  System_Qty : Z
}.

Definition key_of (l : audit_line) : key :=
  (Category l, Brand l, Distru_Product l, Distru_Batch_Number l).

(* ================================================================== *)
(** * Ordering of keys *)

(** Order of one text column under [sort_values]: strings by code point,
    NaN after every string. *)
Definition cell_compare (a b : cell) : comparison :=
  match a, b with
  | Some x, Some y => String.compare x y
  | Some _, None => Lt
  | None, Some _ => Gt
  | None, None => Eq
  end.

Definition lex (c1 c2 : comparison) : comparison :=
  match c1 with Eq => c2 | _ => c1 end.

Definition key_compare (k1 k2 : key) : comparison :=
  let '(c1, b1, p1, n1) := k1 in
  let '(c2, b2, p2, n2) := k2 in
  lex (cell_compare c1 c2)
      (lex (String.compare b1 b2)
           (lex (cell_compare p1 p2) (cell_compare n1 n2))).

Definition leb_of {A} (cmp : A -> A -> comparison) (x y : A) : bool :=
  match cmp x y with Gt => false | _ => true end.

Definition eqb_of {A} (cmp : A -> A -> comparison) (x y : A) : bool :=
  match cmp x y with Eq => true | _ => false end.

Definition key_leb : key -> key -> bool := leb_of key_compare.
Definition key_eqb : key -> key -> bool := eqb_of key_compare.
Definition cell_leb : cell -> cell -> bool := leb_of cell_compare.
Definition cell_eqb : cell -> cell -> bool := eqb_of cell_compare.

(** A stable sort by insertion. *)
Fixpoint insert_by {A} (leb : A -> A -> bool) (x : A) (l : list A) : list A :=
  match l with
  | [] => [x]
  | y :: l' => if leb x y then x :: l else y :: insert_by leb x l'
  end.

Definition sort_by {A} (leb : A -> A -> bool) (l : list A) : list A :=
  fold_right (insert_by leb) [] l.

(** The distinct values of a column, in the order of first appearance. *)
Fixpoint unique_go {A} (eqb : A -> A -> bool) (seen l : list A) : list A :=
  match l with
  | [] => []
  | x :: l' =>
      if existsb (eqb x) seen then unique_go eqb seen l'
      else x :: unique_go eqb (x :: seen) l'
  end.

Definition unique {A} (eqb : A -> A -> bool) (l : list A) : list A :=
  unique_go eqb [] l.

(* ================================================================== *)
(** * Utility functions of [app.py] *)

(** [extract_brand_from_product(product_name)] *)
Definition extract_brand_from_product (product_name : cell) : string :=
  match product_name with
  | None => "Unknown"
  | Some s =>
      let name_str := PyStr.strip s in
      if PyStr.contains " - " name_str
      then
        let brand := PyStr.strip (hd "" (PyStr.split " - " name_str)) in
        if String.eqb brand "" then "Unknown" else brand
      else "Unknown"
  end.

(** [float(value)]; [None] stands for the exception. *)
Definition to_float (v : value) : option pyfloat :=
  match v with
  | VFloat f => Some f
  | VStr s => PyFloat.of_string s
  end.

(** [safe_numeric(value, default)]: the [except] clause catches every
    exception of the conversion. *)
Definition safe_numeric (v : value) (default : pyfloat) : pyfloat :=
  if notna v
  then match to_float v with
       | Some f => f
       | None => default
       end
  else default.

(* ================================================================== *)
(** * Validation *)

Definition required_cols : list string :=
  ["Distru Product"; "Category"; "Distru Batch Number"; "Available Quantity"].

Definition in_columns (col : string) (df : dataframe) : bool :=
  existsb (String.eqb col) (df_columns df).

(** [[col for col in required_cols if col not in df.columns]] *)
Definition missing_cols (d : dataframe) : list string :=
  filter (fun col => negb (in_columns col d)) required_cols.

(** [validate_required_columns(df)]; [None] is the Python [None]. *)
Definition validate_required_columns (df : option dataframe) : bool * string :=
  match df with
  | None => (false, "DataFrame is empty")
  | Some d =>
      if df_empty d then (false, "DataFrame is empty")
      else
        let missing := missing_cols d in
        match missing with
        | _ :: _ =>
            (false, ("Missing required columns: " ++ PyStr.join ", " missing)%string)
        | [] => (true, "All required columns present")
        end
  end.

(** [df is None or df.empty] *)
Definition is_empty (df : option dataframe) : Prop :=
  match df with
  | None => True
  | Some d => df_empty d = true
  end.

(* ================================================================== *)
(** * Aggregation *)

(** The two derived columns: Brand and the coerced quantity. *)
Definition normalize (r : package) : key * pyfloat :=
  ((pkg_Category r, extract_brand_from_product (pkg_Product r),
    pkg_Product r, pkg_Batch r),
   safe_numeric (pkg_Quantity r) PyFloat.zero).

(** One step of the compensated summation of pandas' [group_sum]:
    [y = val - compensation; t = sumx + y;
     compensation = t - sumx - y; sumx = t],
    the compensation being reset when it is NaN. *)
Definition kahan_step (st : pyfloat * pyfloat) (val : pyfloat)
  : pyfloat * pyfloat :=
  let (sumx, compensation) := st in
  let y := PyFloat.sub val compensation in
  let t := PyFloat.add sumx y in
  let compensation := PyFloat.sub (PyFloat.sub t sumx) y in
  (t, if PyFloat.isnan compensation then PyFloat.zero else compensation).

(** The sum of a group, in the order of the rows: NaN entries are passed
    over. *)
Definition sum_skipna (l : list pyfloat) : pyfloat :=
  fst (fold_left kahan_step (filter (fun f => negb (PyFloat.isnan f)) l)
                 (PyFloat.zero, PyFloat.zero)).

Definition group_of (k : key) (rows : list (key * pyfloat)) : list pyfloat :=
  map snd (filter (fun r => key_eqb (fst r) k) rows).

(** The distinct keys of the rows, in ascending order. *)
Definition group_keys (rows : list (key * pyfloat)) : list key :=
  sort_by key_leb (unique key_eqb (map fst rows)).

(** [groupby(keys, dropna=False).agg({'System_Qty': 'sum'}).reset_index()]:
    one row per distinct key, NaN being a key component like any other,
    the groups in the order of their keys. *)
Definition groupby_sum (rows : list (key * pyfloat)) : list (key * pyfloat) :=
  map (fun k => (k, sum_skipna (group_of k rows))) (group_keys rows).

Definition int64_min : Z := (- 2 ^ 63)%Z.
Definition int64_max : Z := (2 ^ 63 - 1)%Z.

Definition in_int64 (z : Z) : bool :=
  (int64_min <=? z)%Z && (z <=? int64_max)%Z.

(** The conversion of a rounded float to int64, the integer type of
    [astype(int)] where the default integer of numpy has 64 bits.  Out of
    the range of int64 the conversion is not checked and its value is left
    to the machine; the value here is the one the conversion instruction
    of x86-64 gives.  Of such a value the theorems use only that it is
    negative below -2^63. *)
Definition cast_int64 (z : Z) : Z :=
  if in_int64 z then z else int64_min.

(** Addition of int64 wraps around. *)
Definition wrap_int64 (z : Z) : Z :=
  ((z - int64_min) mod 2 ^ 64 + int64_min)%Z.

(** [x.round()] followed by [astype(int)] on one entry: the cast rejects
    a value that is not finite. *)
Definition round_astype_int (f : pyfloat) : result Z :=
  match f with
  | Fin q => Ok (cast_int64 (PyFloat.round_half_even q))
  | _ => Raise IntCastingNaNError
  end.

Definition to_line (g : key * pyfloat) : result audit_line :=
  let '(c, b, p, n) := fst g in
  rmap (fun z => {| Category := c; Brand := b; Distru_Product := p;
                    Distru_Batch_Number := n; System_Qty := z |})
       (round_astype_int (snd g)).

(** [grouped.sort_values([...])] *)
Definition sort_values (lines : list audit_line) : list audit_line :=
  sort_by (fun a b => key_leb (key_of a) (key_of b)) lines.

(** [process_packages_to_audit(df)] *)
Definition process_packages_to_audit (df : list package)
  : result (list audit_line) :=
  let audit_df := map normalize df in
  let grouped := groupby_sum audit_df in
  rmap sort_values (rmapM to_line grouped).

(* ================================================================== *)
(** * Filtering (the block "Apply filters" of [main]) *)

(** [x in sel] for a list of option names *)
Definition mem (x : string) (sel : list string) : bool :=
  existsb (String.eqb x) sel.

(** [Series.isin(sel)] on one cell: NaN matches no name. *)
Definition isin (c : cell) (sel : list string) : bool :=
  match c with
  | Some s => mem s sel
  | None => false
  end.

(** The guard [sel and 'All' not in sel] *)
Definition restricts (sel : list string) : bool :=
  negb (List.length sel =? 0) && negb (mem "All" sel).

Definition apply_filters (audit_df : list audit_line)
           (selected_categories selected_brands : list string)
  : list audit_line :=
  let filtered_df := audit_df in
  let filtered_df :=
    if restricts selected_categories
    then filter (fun r => isin (Category r) selected_categories) filtered_df
    else filtered_df in
  let filtered_df :=
    if restricts selected_brands
    then filter (fun r => isin (Some (Brand r)) selected_brands) filtered_df
    else filtered_df in
  filtered_df.

(* ================================================================== *)
(** * Document construction ([generate_audit_pdf]) *)

Inductive pagesize : Type := letter | A4.

Inductive pstyle : Type := CustomTitle | CustomHeader | Heading2 | CellText.

Inductive tcell : Type :=
| TText (s : string)
| TPara (s : string) (st : pstyle).

Inductive tstyle : Type := AuditTableStyle | SignatureTableStyle.

(** The flowables the program hands to the layout engine.  A [TableStyle]
    is kept by name, lengths are in points. *)
Inductive flowable : Type :=
| Paragraph (text : string) (style : pstyle)
| Spacer (width height : Q)
| Table (data : list (list tcell)) (colWidths : list Q) (repeatRows : nat)
        (style : tstyle)
| PageBreak.

(** What [doc.build] receives; the bytes of the file are the layout
    engine's rendering of it. *)
Record document : Type := {
  doc_pagesize : pagesize;
  doc_elements : list flowable
}.

Definition inch : Q := 72%Q.

(** [", ".join(sel) if sel and 'All' not in sel else dflt] *)
Definition selection_text (sel : list string) (dflt : string) : string :=
  if restricts sel then PyStr.join ", " sel else dflt.

(** [Series.nunique()]: the number of distinct values, NaN not counted. *)
Definition nunique (col : list cell) : nat :=
  List.length (unique cell_eqb (filter (fun c => negb (isna_cell c)) col)).

(** [sorted(l)] on cells: a str and a float (NaN) cannot be compared. *)
Definition py_sorted (l : list cell) : result (list cell) :=
  if forallb (fun c => negb (isna_cell c)) l then Ok (sort_by cell_leb l)
  else if forallb isna_cell l then Ok l
  else Raise TypeError.

(** The comparison [df['Category'] == category] on one row: NaN is equal
    to nothing. *)
Definition eq_cell (a b : cell) : bool :=
  match a, b with
  | Some x, Some y => String.eqb x y
  | _, _ => false
  end.

Definition title_block : list flowable :=
  [Paragraph "HAVEN DISTRIBUTION INVENTORY AUDIT WORKSHEET" CustomTitle;
   Spacer 1 ((1 # 10) * inch)].

Definition metadata_block (audit_date audit_time : string)
           (unique_batches : nat) (category_text brand_text : string)
  : list flowable :=
  [Paragraph ("<b>Date:</b> " ++ audit_date
              ++ " &nbsp;&nbsp;&nbsp; <b>Time:</b> " ++ audit_time
              ++ " &nbsp;&nbsp;&nbsp; <b>Unique Batches:</b> "
              ++ PyStr.of_nat unique_batches)%string CustomHeader;
   Paragraph ("<b>Categories:</b> " ++ category_text
              ++ " &nbsp;&nbsp;&nbsp; <b>Brands:</b> " ++ brand_text)%string
             CustomHeader;
   Spacer 1 ((15 # 100) * inch)].

(** One data row of a category table. *)
Definition table_row (row : audit_line) : list tcell :=
  let product := str_cell (Distru_Product row) in
  let product :=
    if 60 <? String.length product
    then (substring 0 57 product ++ "...")%string
    else product in
  [TText product;
   TPara (str_cell (Distru_Batch_Number row)) CellText;
   TText (PyStr.of_Z (System_Qty row));
   TText ""].

Definition table_header : list tcell :=
  [TText "Product"; TText "Batch #";
   TText (String "S" (String "y" (String "s" (String "t" (String "e" (String "m"
     (String (ascii_of_nat 10) "Qty")))))));
   TText (String "P" (String "h" (String "y" (String "s" (String "i" (String "c"
     (String "a" (String "l" (String (ascii_of_nat 10) "Count")))))))))].

(** [df[df['Category'] == category]] *)
Definition cat_rows (df : list audit_line) (category : cell) : list audit_line :=
  filter (fun r => eq_cell (Category r) category) df.

(** The heading of the section of one category. *)
Definition section_heading (df : list audit_line) (category : cell) : flowable :=
  Paragraph ("<b>Category: " ++ str_cell category ++ "</b> ("
             ++ PyStr.of_nat (List.length (cat_rows df category))
             ++ " items)")%string Heading2.

(** The flowables of one category, without the page break. *)
Definition category_section (df : list audit_line) (category : cell)
  : list flowable :=
  let cat_data := cat_rows df category in
  [section_heading df category;
   Spacer 1 ((1 # 10) * inch);
   Table (table_header :: map table_row cat_data)
         [4 * inch; (15 # 10) * inch; (7 # 10) * inch; (9 # 10) * inch]%Q
         1 AuditTableStyle;
   Spacer 1 ((2 # 10) * inch)].

(** The loop [for cat_idx, category in enumerate(categories)]: [n] is
    [len(categories)], [cat_idx] the index of the head of [cats]. *)
Fixpoint category_loop (df : list audit_line) (n cat_idx : nat)
         (cats : list cell) (elements : list flowable) : list flowable :=
  match cats with
  | [] => elements
  | category :: rest =>
      let elements := elements ++ category_section df category in
      let elements :=
        if cat_idx <? n - 1 then elements ++ [PageBreak] else elements in
      category_loop df n (S cat_idx) rest elements
  end.

Definition signature_table : flowable :=
  Table [[TText "Audited By:"; TText (PyStr.repeat_char "_" 40);
          TText "Date:"; TText (PyStr.repeat_char "_" 20)];
         [TText ""; TText ""; TText ""; TText ""];
         [TText "Verified By:"; TText (PyStr.repeat_char "_" 40);
          TText "Date:"; TText (PyStr.repeat_char "_" 20)]]
        [1 * inch; 3 * inch; (7 # 10) * inch; (18 # 10) * inch]%Q
        0 SignatureTableStyle.

Definition signature_block : list flowable :=
  [Spacer 1 ((3 # 10) * inch); signature_table].

(** [letter if page_size == "letter" else A4] *)
Definition select_pagesize (page_size : string) : pagesize :=
  if String.eqb page_size "letter" then letter else A4.

(** The metadata paragraphs for the given clock readings. *)
Definition metadata_of (df : list audit_line)
           (selected_categories selected_brands : list string)
           (now_date now_time : datetime) : list flowable :=
  let audit_date := strftime_date now_date in
  let audit_time := strftime_time now_time in
  let category_text := selection_text selected_categories "All Categories" in
  let brand_text := selection_text selected_brands "All Brands" in
  let unique_batches := nunique (map Distru_Batch_Number df) in
  metadata_block audit_date audit_time unique_batches category_text brand_text.

(** [generate_audit_pdf(df, selected_categories, selected_brands, page_size)]:
    the clock is read twice, once for the date and once for the time.  The
    selections are lists of option names.  Of the exceptions of the
    function the model has the comparison error of [sorted]; the errors of
    the layout library, which parses the text of a [Paragraph] as markup
    when it is constructed and lays the flowables out in [doc.build], are
    outside it: the statements about a document are statements about the
    flowables of a document that was built. *)
Definition generate_audit_pdf (df : list audit_line)
           (selected_categories selected_brands : list string)
           (page_size : string) : IO (result document) :=
  let pagesize := select_pagesize page_size in
  let elements := title_block in
  now_date <- datetime_now ;;
  now_time <- datetime_now ;;
  let elements :=
    elements ++ metadata_of df selected_categories selected_brands
                            now_date now_time in
  ret (rbind (py_sorted (unique cell_eqb (map Category df)))
         (fun categories =>
            let elements :=
              category_loop df (List.length categories) 0 categories elements in
            let elements := elements ++ signature_block in
            Ok {| doc_pagesize := pagesize; doc_elements := elements |})).

(* ================================================================== *)
(** * The statements of the specification, as functions *)

(** The brand as the specification words it: the trimmed text before the
    first occurrence of the delimiter in the product name itself. *)
Definition brand_by_spec (product_name : cell) : string :=
  match product_name with
  | None => "Unknown"
  | Some s =>
      match index 0 " - " s with
      | None => "Unknown"
      | Some i =>
          let b := PyStr.strip (substring 0 i s) in
          if String.eqb b "" then "Unknown" else b
      end
  end.

(** A selection as the specification words it. *)
Inductive selection : Type :=
| All
| Explicit (names : list string).

(** The selection a list of chosen options stands for. *)
Definition selection_of (sel : list string) : selection :=
  if mem "All" sel then All else Explicit sel.

(** The filter rule of the specification on one dimension: an explicit
    set keeps its members only, hence nothing when it is empty. *)
Definition keeps_by_spec (s : selection) (c : cell) : bool :=
  match s with
  | All => true
  | Explicit names => isin c names
  end.

Definition filter_by_spec (audit_df : list audit_line)
           (cats brands : selection) : list audit_line :=
  filter (fun r => keeps_by_spec cats (Category r)
                   && keeps_by_spec brands (Some (Brand r))) audit_df.

(** Sections of a list of flowables: the headings that open them. *)
Definition is_heading (f : flowable) : bool :=
  match f with Paragraph _ Heading2 => true | _ => false end.

Definition is_page_break (f : flowable) : bool :=
  match f with PageBreak => true | _ => false end.

Definition is_signature (f : flowable) : bool :=
  match f with Table _ _ _ SignatureTableStyle => true | _ => false end.

Definition count (p : flowable -> bool) (l : list flowable) : nat :=
  List.length (filter p l).

(** Sections joined by one separator between two neighbours. *)
Fixpoint join_sections (sep : list flowable) (secs : list (list flowable))
  : list flowable :=
  match secs with
  | [] => []
  | [s] => s
  | s :: rest => s ++ sep ++ join_sections sep rest
  end.

(** The selection the filter block acts on: a list that is empty or holds
    the option 'All' restricts nothing. *)
Definition effective_selection (sel : list string) : selection :=
  if restricts sel then Explicit sel else All.

(** A quantity that is not negative. *)
Definition nonneg (f : pyfloat) : Prop :=
  match f with
  | Fin q => (0 <= q)%Q
  | PInf => True
  | NInf => False
  | FNaN => True
  end.

(** A float that is a whole number, and the integer it is. *)
Definition whole (f : pyfloat) : Prop :=
  match f with
  | Fin q => (q == inject_Z (Qfloor q))%Q
  | _ => False
  end.

Definition whole_part (f : pyfloat) : Z :=
  match f with
  | Fin q => Qfloor q
  | _ => 0%Z
  end.

(** The sum of whole numbers, and the sum of their magnitudes. *)
Definition exact_sum (l : list pyfloat) : Z :=
  fold_right Z.add 0%Z (map whole_part l).

Definition magnitude_sum (l : list pyfloat) : Z :=
  fold_right Z.add 0%Z (map (fun f => Z.abs (whole_part f)) l).

(** Quantities that binary64 arithmetic adds without rounding: whole
    numbers whose magnitudes total at most 2^53. *)
Definition exact_group (l : list pyfloat) : Prop :=
  Forall whole l /\ (magnitude_sum l <= 2 ^ 53)%Z.

(** What every finite result of a binary64 operation is: an integer, or a
    number of magnitude at most 2^52. *)
Definition integer_or_small (q : Q) : Prop :=
  (exists z, q == inject_Z z)%Q \/ (Qabs q <= inject_Z (2 ^ 52))%Q.

(** Strictly ascending order of two cells. *)
Definition cell_lt (a b : cell) : Prop := cell_compare a b = Lt.

(** Strictly ascending order of two audit lines by their keys. *)
Definition key_lt (a b : audit_line) : Prop :=
  key_compare (key_of a) (key_of b) = Lt.

(** A comparison function that makes a strict total order. *)
Class CmpOrder {A : Type} (cmp : A -> A -> comparison) : Prop := {
  cmp_eq : forall x y, cmp x y = Eq <-> x = y;
  cmp_antisym : forall x y, cmp x y = CompOpp (cmp y x);
  cmp_trans : forall x y z, cmp x y = Lt -> cmp y z = Lt -> cmp x z = Lt
}.

Definition pair_compare {A B} (cmpA : A -> A -> comparison)
           (cmpB : B -> B -> comparison) (x y : A * B) : comparison :=
  lex (cmpA (fst x) (fst y)) (cmpB (snd x) (snd y)).

(* ================================================================== *)
(** * The option lists and the report preview of [main] *)

(** [sorted(audit_df['Category'].unique().tolist())] *)
Definition session_categories (audit_df : list audit_line)
  : result (list cell) :=
  py_sorted (unique cell_eqb (map Category audit_df)).

(** [sorted(audit_df['Brand'].unique().tolist())]: brands are always
    strings. *)
Definition session_brands (audit_df : list audit_line) : list string :=
  sort_by (leb_of String.compare)
          (unique (eqb_of String.compare) (map Brand audit_df)).

(** [df['System_Qty'].sum()] on the int64 column *)
Definition total_qty (df : list audit_line) : Z :=
  fold_left (fun acc z => wrap_int64 (acc + z)) (map System_Qty df) 0%Z.

(** The sum of the column as an integer without bound. *)
Definition exact_total (df : list audit_line) : Z :=
  fold_left Z.add (map System_Qty df) 0%Z.

(** One expander of the preview: the category, the number of its items
    and the number of its units. *)
Definition preview_entry (filtered_df : list audit_line) (category : cell)
  : cell * nat * Z :=
  let cat_data := cat_rows filtered_df category in
  (category, List.length cat_data, total_qty cat_data).

(** The loop [for category in categories_in_report] of the preview. *)
Definition report_preview (filtered_df : list audit_line)
  : result (list (cell * nat * Z)) :=
  rmap (map (preview_entry filtered_df))
       (py_sorted (unique cell_eqb (map Category filtered_df))).

(* ================================================================== *)
(** * Notions used in the statements *)

(** A line whose category is present. *)
Definition has_category (r : audit_line) : bool :=
  negb (isna_cell (Category r)).

(** The data rows of a category table (the header row left out). *)
Definition table_data_rows (f : flowable) : list (list tcell) :=
  match f with
  | Table (_ :: rows) _ _ AuditTableStyle => rows
  | _ => []
  end.

(** All the data rows a list of flowables prints, in order. *)
Definition printed_rows (elements : list flowable) : list (list tcell) :=
  List.concat (map table_data_rows elements).

(** A table in which a missing category stands beside a present one. *)
Definition mixed_categories (df : list audit_line) : Prop :=
  (exists r, In r df /\ Category r = None)
  /\ (exists r, In r df /\ Category r <> None).

(** A float that is not a finite number. *)
Definition not_finite (f : pyfloat) : Prop :=
  match f with
  | Fin _ => False
  | _ => True
  end.

(** The text of the Product cell of a table row. *)
Definition product_text (row : audit_line) : string :=
  match table_row row with
  | TText t :: _ => t
  | _ => ""
  end.

(* ================================================================== *)
(** * Sample tables, clocks and documents *)

Definition sample_row (qty : string) : package :=
  {| pkg_Product := Some "Acme - Widget A"; pkg_Category := Some "Vape";
     pkg_Batch := Some "B1"; pkg_Quantity := VStr qty |}.

Definition sample_line (qty : Z) : audit_line :=
  {| Category := Some "Vape"; Brand := "Acme";
     Distru_Product := Some "Acme - Widget A";
     Distru_Batch_Number := Some "B1"; System_Qty := qty |}.

(** A raw table that lacks two of the required columns. *)
Definition sample_dataframe : dataframe :=
  {| df_columns := ["Category"; "Available Quantity"; "Location"];
     df_rows := [[VStr "Vape"; VStr "5"; VStr "A1"]] |}.

(** A table with a group whose key has missing components. *)
Definition sample_table : list package :=
  [sample_row "5";
   {| pkg_Product := None; pkg_Category := None; pkg_Batch := Some "B2";
      pkg_Quantity := VStr "1.5" |};
   sample_row "3";
   {| pkg_Product := None; pkg_Category := None; pkg_Batch := Some "B2";
      pkg_Quantity := VStr "2" |}].

Definition sample_audit : list audit_line :=
  [sample_line 8;
   {| Category := None; Brand := "Unknown"; Distru_Product := None;
      Distru_Batch_Number := Some "B2"; System_Qty := 4 |}].

Definition world_at (t : datetime) : world :=
  {| clock := fun _ => t; reads := 0 |}.

Definition sample_morning : datetime :=
  {| year := 2025; month := 11; day := 7; hour := 9; minute := 5 |}.

Definition sample_evening : datetime :=
  {| year := 2025; month := 11; day := 7; hour := 21; minute := 30 |}.

(** An audit table with two categories. *)
Definition sample_two_categories : list audit_line :=
  [{| Category := Some "Flower"; Brand := "Zed";
      Distru_Product := Some "Zed - Kush"; Distru_Batch_Number := Some "B7";
      System_Qty := 3 |};
   sample_line 8].

Definition render_sample (w : world) : result document :=
  fst (generate_audit_pdf sample_two_categories ["All"] ["All"] "letter" w).

Definition sample_document : document :=
  Eval vm_compute in
    match render_sample (world_at sample_morning) with
    | Ok doc => doc
    | Raise _ => {| doc_pagesize := letter; doc_elements := [] |}
    end.

(** A line whose category is missing. *)
Definition sample_line_no_category : audit_line :=
  {| Category := None; Brand := "Unknown"; Distru_Product := None;
     Distru_Batch_Number := Some "B2"; System_Qty := 4 |}.

(** The document of a table whose only line has no category. *)
Definition sample_document_no_category : document :=
  Eval vm_compute in
    match fst (generate_audit_pdf [sample_line_no_category] ["All"] ["All"]
                                  "letter" (world_at sample_morning)) with
    | Ok doc => doc
    | Raise _ => {| doc_pagesize := letter; doc_elements := [] |}
    end.

(* ================================================================== *)
(** * Facts about strings *)

Section StringFacts.

Variable a : ascii.
Variable sep' : string.
Let sep := String a sep'.

Lemma contains_cons (c : ascii) (s : string) :
  PyStr.contains sep (String c s)
  = prefix sep (String c s) || PyStr.contains sep s.
Proof. reflexivity. Qed.

Lemma index_cons (c : ascii) (s : string) :
  index 0 sep (String c s)
  = if prefix sep (String c s) then Some 0
    else match index 0 sep s with Some n => Some (S n) | None => None end.
Proof. reflexivity. Qed.

Lemma split_go_cons (cur : list ascii) (c : ascii) (s : string) :
  PyStr.split_go sep 0 cur (String c s)
  = if prefix sep (String c s)
    then PyStr.rev_string cur EmptyString
           :: PyStr.split_go sep (String.length sep - 1) [] s
    else PyStr.split_go sep 0 (c :: cur) s.
Proof. reflexivity. Qed.

(** [sep in s] holds exactly when [s.find(sep)] finds a position. *)
Lemma contains_index (s : string) :
  PyStr.contains sep s
  = match index 0 sep s with Some _ => true | None => false end.
Proof.
  induction s as [|c s IH].
  - reflexivity.
  - rewrite contains_cons, index_cons, IH.
    destruct (prefix sep (String c s)); [reflexivity|].
    destruct (index 0 sep s); reflexivity.
Qed.

(** The first piece of [s.split(sep)] is the text before the first
    occurrence of [sep]. *)
Lemma split_go_head (s : string) :
  forall (cur : list ascii) (i : nat),
    index 0 sep s = Some i ->
    hd EmptyString (PyStr.split_go sep 0 cur s)
    = PyStr.rev_string cur (substring 0 i s).
Proof.
  induction s as [|c s IH]; intros cur i Hi.
  - discriminate Hi.
  - rewrite index_cons in Hi. rewrite split_go_cons.
    destruct (prefix sep (String c s)).
    + injection Hi as <-. reflexivity.
    + destruct (index 0 sep s) as [n|] eqn:En; [|discriminate].
      injection Hi as <-. rewrite (IH (c :: cur) n eq_refl). reflexivity.
Qed.

Lemma split_head (s : string) (i : nat) :
  index 0 sep s = Some i ->
  hd EmptyString (PyStr.split sep s) = substring 0 i s.
Proof. intros H. unfold PyStr.split. now rewrite (split_go_head s [] i H). Qed.

End StringFacts.

(* ================================================================== *)
(** * Brand extraction *)

(** The program looks for the delimiter in the trimmed name. *)
Lemma extract_brand_via_index (s : string) :
  extract_brand_from_product (Some s) = brand_by_spec (Some (PyStr.strip s)).
Proof.
  unfold extract_brand_from_product, brand_by_spec.
  rewrite contains_index.
  destruct (index 0 " - " (PyStr.strip s)) as [i|] eqn:Ei; [|reflexivity].
  now rewrite (split_head _ _ _ _ Ei).
Qed.

(** C6: the product name "Acme - " contains the delimiter " - " and the
    trimmed text before its first occurrence is "Acme", which is the brand
    the specification and the docstring of the function give; the program
    returns "Unknown", because it trims the name before it looks for the
    delimiter, and the trimming takes the last space of the delimiter
    away.  The four examples of the specification hold. *)
Theorem C6_brand_at_trailing_delimiter :
  PyStr.contains " - " "Acme - " = true
  /\ brand_by_spec (Some "Acme - ") = "Acme"
  /\ extract_brand_from_product (Some "Acme - ") = "Unknown"
  /\ PyStr.contains " - " (PyStr.strip "Acme - ") = false
  /\ extract_brand_from_product (Some "Acme - Widget") = "Acme"
  /\ extract_brand_from_product (Some "NoDelimiterHere") = "Unknown"
  /\ extract_brand_from_product None = "Unknown"
  /\ extract_brand_from_product (Some "") = "Unknown"
  /\ extract_brand_from_product (Some " - OnlySuffix") = "Unknown".
Proof. repeat split; reflexivity. Qed.

(** What the program computes for every product name: the brand the
    specification describes, of the trimmed name. *)
Lemma extract_brand_trimmed_name (product_name : cell) :
  extract_brand_from_product product_name
  = brand_by_spec (option_map PyStr.strip product_name).
Proof.
  destruct product_name as [s|];
    [apply extract_brand_via_index | reflexivity].
Qed.

(* ================================================================== *)
(** * Quantity coercion *)

(** C7: quantity coercion is total; a missing value (NaN) and a value
    whose conversion raises give the default, any other value gives the
    number it converts to; the pipeline passes the default 0, so that
    "12" gives 12, "abc" gives 0 and a missing value gives 0. *)
Theorem C7_safe_numeric_total :
  (forall default : pyfloat, safe_numeric (VFloat FNaN) default = default)
  /\ (forall (f : pyfloat) (default : pyfloat),
         safe_numeric (VFloat f) default
         = if PyFloat.isnan f then default else f)
  /\ (forall (s : string) (default : pyfloat),
         safe_numeric (VStr s) default
         = match PyFloat.of_string s with
           | Some f => f
           | None => default
           end)
  /\ (forall r : package,
         snd (normalize r) = safe_numeric (pkg_Quantity r) (Fin 0))
  /\ PyFloat.of_string "abc" = None
  /\ safe_numeric (VStr "12") (Fin 0) = Fin 12
  /\ safe_numeric (VStr "abc") (Fin 0) = Fin 0
  /\ safe_numeric (VFloat FNaN) (Fin 0) = Fin 0.
Proof.
  repeat split; try reflexivity.
  intros [q| | |] default; reflexivity.
Qed.

(* ================================================================== *)
(** * Validation *)

Lemma in_columns_In (col : string) (d : dataframe) :
  in_columns col d = true <-> In col (df_columns d).
Proof.
  unfold in_columns. rewrite existsb_exists. split.
  - intros (x & Hx & E). apply String.eqb_eq in E. now subst.
  - intros H. exists col. split; [assumption | apply String.eqb_refl].
Qed.

Lemma missing_cols_spec (col : string) (d : dataframe) :
  In col (missing_cols d) <-> In col required_cols /\ ~ In col (df_columns d).
Proof.
  unfold missing_cols. rewrite filter_In, negb_true_iff.
  rewrite <- in_columns_In. destruct (in_columns col d); intuition congruence.
Qed.

(** C9: the validator fails exactly when the table is absent or empty, or
    when a required column is absent; an empty table is reported as such,
    otherwise the message lists precisely the required columns that are
    absent, in the order of the list of required columns; in every other
    case it reports success.  Its result is the flag and the message only. *)
Theorem C9_validate_required_columns (df : option dataframe) :
  (fst (validate_required_columns df) = false
   <-> is_empty df \/ exists d, df = Some d /\ missing_cols d <> [])
  /\ (is_empty df ->
      validate_required_columns df = (false, "DataFrame is empty"))
  /\ (forall d, df = Some d -> df_empty d = false -> missing_cols d <> [] ->
      validate_required_columns df
      = (false, ("Missing required columns: "
                 ++ PyStr.join ", " (missing_cols d))%string))
  /\ (forall d col, df = Some d ->
      (In col (missing_cols d)
       <-> In col required_cols /\ ~ In col (df_columns d)))
  /\ (forall d, df = Some d -> df_empty d = false -> missing_cols d = [] ->
      validate_required_columns df = (true, "All required columns present")).
Proof.
  destruct df as [d|]; cbn [validate_required_columns is_empty].
  - fold (missing_cols d).
    assert (Hspec : forall d' col, Some d = Some d' ->
              (In col (missing_cols d')
               <-> In col required_cols /\ ~ In col (df_columns d'))).
    { intros d' col _. apply missing_cols_spec. }
    destruct (df_empty d) eqn:Ee.
    + split; [|split; [|split; [|split]]]; try assumption.
      * split; [intros _; now left | reflexivity].
      * reflexivity.
      * intros d' E H. injection E as <-. congruence.
      * intros d' E H. injection E as <-. congruence.
    + destruct (missing_cols d) as [|m ms] eqn:Em.
      * split; [|split; [|split; [|split]]]; try assumption.
        -- split; [discriminate|].
           intros [H | (d' & E & H)]; [discriminate H|].
           injection E as <-. congruence.
        -- discriminate.
        -- intros d' E _ H. injection E as <-. congruence.
        -- reflexivity.
      * split; [|split; [|split; [|split]]]; try assumption.
        -- split; [|reflexivity].
           intros _. right. exists d. split; [reflexivity|]. now rewrite Em.
        -- discriminate.
        -- intros d' E _ _. injection E as <-. now rewrite Em.
        -- intros d' E _ H. injection E as <-. congruence.
  - split; [|split; [|split; [|split]]];
      try (intros; discriminate); try reflexivity.
    split; [intros _; now left | reflexivity].
Qed.

Lemma C9_validate_required_columns_witness :
  df_empty sample_dataframe = false
  /\ missing_cols sample_dataframe <> []
  /\ validate_required_columns (Some sample_dataframe)
     = (false, "Missing required columns: Distru Product, Distru Batch Number").
Proof.
  split; [reflexivity|]. split; [discriminate|].
  destruct (C9_validate_required_columns (Some sample_dataframe))
    as (_ & _ & H & _).
  apply (H sample_dataframe); [reflexivity | reflexivity | discriminate].
Defined.

(* ================================================================== *)
(** * Filtering *)

Lemma filter_filter {A} (p q : A -> bool) (l : list A) :
  filter q (filter p l) = filter (fun x => p x && q x) l.
Proof.
  induction l as [|x l IH]; [reflexivity|].
  cbn [filter]. destruct (p x); cbn [filter andb]; now rewrite IH.
Qed.

Lemma filter_all {A} (p : A -> bool) (l : list A) :
  (forall x, p x = true) -> filter p l = l.
Proof.
  intros H. induction l as [|x l IH]; [reflexivity|].
  cbn [filter]. now rewrite H, IH.
Qed.

Lemma filter_by_spec_All (audit_df : list audit_line) :
  filter_by_spec audit_df All All = audit_df.
Proof. unfold filter_by_spec. now apply filter_all. Qed.

Lemma apply_filters_effective (audit_df : list audit_line)
      (selected_categories selected_brands : list string) :
  apply_filters audit_df selected_categories selected_brands
  = filter_by_spec audit_df (effective_selection selected_categories)
                   (effective_selection selected_brands).
Proof.
  unfold apply_filters, filter_by_spec, effective_selection.
  destruct (restricts selected_categories), (restricts selected_brands);
    cbn [keeps_by_spec].
  - apply filter_filter.
  - apply filter_ext. intros r. now rewrite andb_true_r.
  - reflexivity.
  - symmetry. now apply filter_all.
Qed.

Lemma effective_selection_All (sel : list string) :
  effective_selection sel = All <-> sel = [] \/ mem "All" sel = true.
Proof.
  unfold effective_selection, restricts.
  destruct sel as [|x sel]; cbn [List.length Nat.eqb negb andb].
  - tauto.
  - destruct (mem "All" (x :: sel)); cbn [negb]; split;
      try tauto; try discriminate.
    intros [H | H]; discriminate.
Qed.

(** C1, as stated, fails: with an explicit empty category selection the
    rule of the specification keeps no row, while the program keeps every
    row, because its guard treats an empty list like the option 'All'. *)
Lemma C1_filter_counterexample :
  selection_of [] = Explicit []
  /\ filter_by_spec [sample_line 8] (selection_of []) (selection_of ["All"])
     = []
  /\ apply_filters [sample_line 8] [] ["All"] = [sample_line 8].
Proof. repeat split; reflexivity. Qed.

(** C1 (amended): on each dimension a selection that is empty or contains
    the sentinel 'All' applies no filtering (an empty selection behaves
    like ALL); when both selections are of that kind the aggregated table
    is returned unchanged; explicit non-empty selections keep exactly the
    rows whose category is among the selected categories and whose brand is
    among the selected brands (logical AND), in their order. *)
Theorem C1_apply_filters_rule :
  (forall audit_df selected_categories selected_brands,
      apply_filters audit_df selected_categories selected_brands
      = filter_by_spec audit_df (effective_selection selected_categories)
                       (effective_selection selected_brands))
  /\ (forall sel, effective_selection sel = All
                  <-> sel = [] \/ mem "All" sel = true)
  /\ (forall sel, effective_selection sel = All
                  \/ effective_selection sel = Explicit sel)
  /\ (forall audit_df, filter_by_spec audit_df All All = audit_df)
  /\ (forall audit_df cats brands,
         filter_by_spec audit_df (Explicit cats) (Explicit brands)
         = filter (fun r => isin (Category r) cats
                            && isin (Some (Brand r)) brands) audit_df).
Proof.
  split; [exact apply_filters_effective|].
  split; [exact effective_selection_All|].
  split; [|split; [exact filter_by_spec_All | reflexivity]].
  intros sel. unfold effective_selection. destruct (restricts sel); auto.
Qed.

(* ================================================================== *)
(** * Total orders given by a comparison function *)

Lemma ascii_compare_trans (a b c : ascii) :
  Ascii.compare a b = Lt -> Ascii.compare b c = Lt -> Ascii.compare a c = Lt.
Proof.
  unfold Ascii.compare. rewrite !N.compare_lt_iff. apply N.lt_trans.
Qed.

Lemma ascii_compare_refl (a : ascii) : Ascii.compare a a = Eq.
Proof. unfold Ascii.compare. apply N.compare_refl. Qed.

Lemma string_compare_refl (s : string) : String.compare s s = Eq.
Proof.
  induction s as [|a s IH]; [reflexivity|].
  cbn [String.compare]. now rewrite ascii_compare_refl.
Qed.

Lemma string_compare_trans (s1 : string) :
  forall s2 s3,
    String.compare s1 s2 = Lt -> String.compare s2 s3 = Lt ->
    String.compare s1 s3 = Lt.
Proof.
  induction s1 as [|a s1 IH]; intros [|b s2] [|c s3]; cbn [String.compare];
    try discriminate; try reflexivity.
  destruct (Ascii.compare a b) eqn:Eab; try discriminate;
    destruct (Ascii.compare b c) eqn:Ebc; try discriminate; intros H1 H2.
  - apply Ascii.compare_eq_iff in Eab, Ebc. subst.
    rewrite ascii_compare_refl. eauto.
  - apply Ascii.compare_eq_iff in Eab. subst. now rewrite Ebc.
  - apply Ascii.compare_eq_iff in Ebc. subst. now rewrite Eab.
  - now rewrite (ascii_compare_trans a b c Eab Ebc).
Qed.

#[export] Instance string_order : CmpOrder String.compare.
Proof.
  split.
  - intros x y. split; [apply String.compare_eq_iff|].
    intros ->. apply string_compare_refl.
  - apply String.compare_antisym.
  - apply string_compare_trans.
Qed.

#[export] Instance cell_order : CmpOrder cell_compare.
Proof.
  split.
  - intros [x|] [y|]; cbn [cell_compare]; split; try discriminate;
      try reflexivity.
    + intros H. apply cmp_eq in H. now subst.
    + intros [= ->]. now apply cmp_eq.
  - intros [x|] [y|]; cbn [cell_compare]; try reflexivity. apply cmp_antisym.
  - intros [x|] [y|] [z|]; cbn [cell_compare]; try discriminate;
      try reflexivity. apply cmp_trans.
Qed.

#[export] Instance pair_order {A B} (cmpA : A -> A -> comparison)
  (cmpB : B -> B -> comparison) `{!CmpOrder cmpA} `{!CmpOrder cmpB} :
  CmpOrder (pair_compare cmpA cmpB).
Proof.
  split.
  - intros [x1 x2] [y1 y2]. unfold pair_compare, lex. cbn [fst snd]. split.
    + destruct (cmpA x1 y1) eqn:E1; try discriminate.
      intros E2. apply cmp_eq in E1, E2. now subst.
    + intros [= -> ->]. rewrite (proj2 (cmp_eq y1 y1) eq_refl).
      now apply cmp_eq.
  - intros [x1 x2] [y1 y2]. unfold pair_compare, lex. cbn [fst snd].
    rewrite (cmp_antisym (cmp := cmpA) x1 y1).
    destruct (cmpA y1 x1); cbn [CompOpp]; try reflexivity. apply cmp_antisym.
  - intros [x1 x2] [y1 y2] [z1 z2]. unfold pair_compare, lex. cbn [fst snd].
    destruct (cmpA x1 y1) eqn:E1; try discriminate;
      destruct (cmpA y1 z1) eqn:E2; try discriminate; intros H1 H2.
    + apply cmp_eq in E1, E2. subst.
      rewrite (proj2 (cmp_eq z1 z1) eq_refl). eapply cmp_trans; eauto.
    + apply cmp_eq in E1. subst. now rewrite E2.
    + apply cmp_eq in E2. subst. now rewrite E1.
    + now rewrite (cmp_trans _ _ _ E1 E2).
Qed.

Lemma key_compare_nested (k1 k2 : key) :
  key_compare k1 k2
  = pair_compare
      (pair_compare (pair_compare cell_compare String.compare) cell_compare)
      cell_compare k1 k2.
Proof.
  destruct k1 as [[[c1 b1] p1] n1], k2 as [[[c2 b2] p2] n2].
  unfold key_compare, pair_compare, lex. cbn [fst snd].
  destruct (cell_compare c1 c2), (String.compare b1 b2); reflexivity.
Qed.

#[export] Instance key_order : CmpOrder key_compare.
Proof.
  split.
  - intros x y. rewrite key_compare_nested. apply cmp_eq.
  - intros x y. rewrite !key_compare_nested. apply cmp_antisym.
  - intros x y z. rewrite !key_compare_nested. apply cmp_trans.
Qed.

Section CmpFacts.

Context {A : Type} (cmp : A -> A -> comparison) `{!CmpOrder cmp}.

Lemma cmp_refl (x : A) : cmp x x = Eq.
Proof. now apply cmp_eq. Qed.

Lemma eqb_of_true (x y : A) : eqb_of cmp x y = true <-> x = y.
Proof.
  unfold eqb_of. rewrite <- (cmp_eq (cmp := cmp)).
  destruct (cmp x y); split; congruence.
Qed.

Lemma eqb_of_refl (x : A) : eqb_of cmp x x = true.
Proof. now apply eqb_of_true. Qed.

Lemma leb_of_total (x y : A) : leb_of cmp x y = true \/ leb_of cmp y x = true.
Proof.
  unfold leb_of. rewrite (cmp_antisym (cmp := cmp) x y).
  destruct (cmp y x); cbn [CompOpp]; auto.
Qed.

Lemma leb_of_false (x y : A) : leb_of cmp x y = false -> cmp y x = Lt.
Proof.
  unfold leb_of. rewrite (cmp_antisym (cmp := cmp) x y).
  destruct (cmp y x); cbn [CompOpp]; congruence.
Qed.

Lemma leb_of_true (x y : A) : leb_of cmp x y = true -> cmp x y = Lt \/ x = y.
Proof.
  unfold leb_of. destruct (cmp x y) eqn:E; try discriminate; auto.
  right. now apply cmp_eq.
Qed.

Lemma cmp_lt_irrefl (x : A) : cmp x x <> Lt.
Proof. now rewrite cmp_refl. Qed.

Lemma cmp_lt_asym (x y : A) : cmp x y = Lt -> cmp y x <> Lt.
Proof.
  intros H1 H2. apply (cmp_lt_irrefl x). eapply cmp_trans; eauto.
Qed.

End CmpFacts.

(* ================================================================== *)
(** * Sorting by a key *)

Section SortFacts.

Context {A B : Type} (cmp : A -> A -> comparison) `{!CmpOrder cmp}.
Variable f : B -> A.

Let leb (x y : B) : bool := leb_of cmp (f x) (f y).
Let lt (x y : B) : Prop := cmp (f x) (f y) = Lt.

Lemma insert_by_perm (x : B) (l : list B) :
  Permutation (insert_by leb x l) (x :: l).
Proof.
  induction l as [|y l IH]; cbn [insert_by]; [reflexivity|].
  destruct (leb x y); [reflexivity|].
  rewrite IH. apply perm_swap.
Qed.

Lemma sort_by_perm (l : list B) : Permutation (sort_by leb l) l.
Proof.
  induction l as [|x l IH]; [reflexivity|].
  unfold sort_by in *. cbn [fold_right]. rewrite insert_by_perm.
  now constructor.
Qed.

Lemma insert_by_sorted (x : B) (l : list B) :
  StronglySorted lt l -> ~ In (f x) (map f l) ->
  StronglySorted lt (insert_by leb x l).
Proof.
  induction l as [|y l IH]; intros Hs Hn; cbn [insert_by].
  - constructor; constructor.
  - inversion Hs as [|? ? Hs' Hall]; subst.
    destruct (leb x y) eqn:E.
    + assert (Hxy : lt x y).
      { apply (leb_of_true cmp) in E.
        destruct E as [E|E]; [exact E|].
        exfalso. apply Hn. left. now symmetry. }
      constructor; [assumption|]. constructor; [assumption|].
      eapply Forall_impl; [|exact Hall].
      intros z Hz. unfold lt in *. eapply cmp_trans; eauto.
    + apply (leb_of_false cmp) in E.
      constructor.
      * apply IH; [assumption|]. intros Hin. apply Hn. now right.
      * eapply Permutation_Forall.
        -- symmetry. apply insert_by_perm.
        -- constructor; assumption.
Qed.

Lemma sort_by_sorted (l : list B) :
  NoDup (map f l) -> StronglySorted lt (sort_by leb l).
Proof.
  induction l as [|x l IH]; intros Hnd.
  - constructor.
  - inversion Hnd as [|? ? Hx Hnd']; subst.
    unfold sort_by in *. cbn [fold_right]. apply insert_by_sorted.
    + now apply IH.
    + intros Hin. apply Hx.
      eapply Permutation_in; [|exact Hin].
      apply Permutation_map. apply sort_by_perm.
Qed.

Lemma sorted_lt_NoDup (l : list B) : StronglySorted lt l -> NoDup (map f l).
Proof.
  induction 1 as [|x l Hs IH Hall]; cbn [map]; constructor; [|assumption].
  rewrite in_map_iff. intros (y & E & Hy).
  rewrite Forall_forall in Hall. specialize (Hall y Hy).
  unfold lt in Hall. rewrite E in Hall.
  now apply (cmp_lt_irrefl cmp (f x)).
Qed.

End SortFacts.

Section SortedUnique.

Context {A : Type} (cmp : A -> A -> comparison) `{!CmpOrder cmp}.

Let lt (x y : A) : Prop := cmp x y = Lt.

(** Two strictly ascending lists with the same elements are equal. *)
Lemma sorted_unique (l1 : list A) :
  forall l2,
    StronglySorted lt l1 -> StronglySorted lt l2 ->
    (forall x, In x l1 <-> In x l2) -> l1 = l2.
Proof.
  induction l1 as [|x l1 IH]; intros [|y l2] H1 H2 Hin.
  - reflexivity.
  - exfalso. apply (proj2 (Hin y)). now left.
  - exfalso. apply (proj1 (Hin x)). now left.
  - inversion H1 as [|? ? H1' Hall1]; subst.
    inversion H2 as [|? ? H2' Hall2]; subst.
    rewrite Forall_forall in Hall1, Hall2.
    assert (Exy : x = y).
    { destruct (proj1 (Hin x) (or_introl eq_refl)) as [E|Hx]; [now symmetry|].
      destruct (proj2 (Hin y) (or_introl eq_refl)) as [E|Hy]; [assumption|].
      exfalso. apply (cmp_lt_asym cmp x y); [apply Hall1 | apply Hall2];
        assumption. }
    subst y. f_equal. apply IH; try assumption.
    intros z. split; intros Hz.
    + destruct (proj1 (Hin z) (or_intror Hz)) as [E|Hz']; [|assumption].
      subst z. exfalso. apply (cmp_lt_irrefl cmp x). now apply Hall1.
    + destruct (proj2 (Hin z) (or_intror Hz)) as [E|Hz']; [|assumption].
      subst z. exfalso. apply (cmp_lt_irrefl cmp x). now apply Hall2.
Qed.

Lemma unique_go_In (seen l : list A) (x : A) :
  In x (unique_go (eqb_of cmp) seen l) <-> In x l /\ ~ In x seen.
Proof.
  revert seen. induction l as [|y l IH]; intros seen; cbn [unique_go].
  - cbn [In]. tauto.
  - destruct (existsb (eqb_of cmp y) seen) eqn:E.
    + rewrite IH. apply existsb_exists in E. destruct E as (z & Hz & E).
      apply (eqb_of_true cmp) in E. subst z.
      cbn [In]. split; [tauto|]. intros [[<-|H] Hn]; tauto.
    + cbn [In]. rewrite IH. cbn [In].
      assert (Hy : ~ In y seen).
      { intros Hy. apply Bool.not_true_iff_false in E. apply E.
        apply existsb_exists. exists y. split; [assumption|].
        now apply (eqb_of_refl cmp). }
      split.
      * intros [<-|[H Hn]]; [tauto|]. split; [tauto|]. intros Hs. apply Hn.
        now right.
      * intros [[<-|H] Hn]; [tauto|].
        destruct (cmp_eq (cmp := cmp) y x) as [_ Hd].
        destruct (cmp y x) eqn:Ec.
        -- left. now apply cmp_eq.
        -- right. split; [assumption|]. intros [->|Hs]; [|tauto].
           now rewrite cmp_refl in Ec.
        -- right. split; [assumption|]. intros [->|Hs]; [|tauto].
           now rewrite cmp_refl in Ec.
Qed.

Lemma unique_go_NoDup (seen l : list A) :
  NoDup (unique_go (eqb_of cmp) seen l).
Proof.
  revert seen. induction l as [|y l IH]; intros seen; cbn [unique_go].
  - constructor.
  - destruct (existsb (eqb_of cmp y) seen); [apply IH|].
    constructor; [|apply IH].
    rewrite unique_go_In. cbn [In]. tauto.
Qed.

Lemma unique_In (l : list A) (x : A) :
  In x (unique (eqb_of cmp) l) <-> In x l.
Proof. unfold unique. rewrite unique_go_In. cbn [In]. tauto. Qed.

Lemma unique_NoDup (l : list A) : NoDup (unique (eqb_of cmp) l).
Proof. apply unique_go_NoDup. Qed.


End SortedUnique.

(* ================================================================== *)
(** * Sums and rounding *)


Lemma round_half_even_nonneg (q : Q) :
  (0 <= q)%Q -> (0 <= PyFloat.round_half_even q)%Z.
Proof.
  intros H. unfold PyFloat.round_half_even.
  assert (Hf : (0 <= Qfloor q)%Z).
  { change 0%Z with (Qfloor 0). now apply Qfloor_resp_le. }
  destruct (Qcompare _ _); [destruct (Z.even _)| |]; lia.
Qed.

Lemma Qfloor_half (n : Z) : Qfloor (inject_Z n + (1 # 2)) = n.
Proof.
  unfold Qfloor, Qplus, inject_Z. cbn [Qnum Qden].
  change (Z.pos (1 * 2)) with 2%Z.
  symmetry. apply (Z.div_unique _ 2 n 1); lia.
Qed.

(** A value half way between [n] and [n + 1] goes to the even one. *)
Lemma round_half_even_tie (q : Q) (n : Z) :
  (q == inject_Z n + (1 # 2))%Q ->
  Z.even (PyFloat.round_half_even q) = true
  /\ (PyFloat.round_half_even q = n \/ PyFloat.round_half_even q = (n + 1)%Z).
Proof.
  intros Hq. unfold PyFloat.round_half_even.
  assert (Hf : Qfloor q = n) by (rewrite Hq; apply Qfloor_half).
  rewrite Hf.
  assert (Hc : ((q - inject_Z n)%Q ?= (1 # 2)%Q)%Q = Eq).
  { apply Qeq_alt. rewrite Hq. ring. }
  rewrite Hc. destruct (Z.even n) eqn:En.
  - split; [assumption | now left].
  - split; [|now right].
    rewrite Z.add_1_r, Z.even_succ, <- Z.negb_even, En. reflexivity.
Qed.

(** A value that is not half way goes to the nearest integer. *)
Lemma round_half_even_near (q : Q) :
  (Qabs (inject_Z (PyFloat.round_half_even q) - q) <= 1 # 2)%Q.
Proof.
  unfold PyFloat.round_half_even.
  pose proof (Qfloor_le q) as Hlo. pose proof (Qlt_floor q) as Hhi.
  rewrite inject_Z_plus in Hhi. change (inject_Z 1) with 1%Q in Hhi.
  set (f := Qfloor q) in *.
  apply Qabs_Qle_condition.
  destruct (Qcompare (q - inject_Z f) (1 # 2)) eqn:Ec.
  - apply Qeq_alt in Ec.
    destruct (Z.even f);
      [|rewrite inject_Z_plus; change (inject_Z 1) with 1%Q]; split; lra.
  - apply Qlt_alt in Ec. split; lra.
  - apply Qgt_alt in Ec. rewrite inject_Z_plus.
    change (inject_Z 1) with 1%Q. split; lra.
Qed.

Lemma round_half_even_int (q : Q) (z : Z) :
  (q == inject_Z z)%Q -> PyFloat.round_half_even q = z.
Proof.
  intros Hq. unfold PyFloat.round_half_even.
  assert (Hf : Qfloor q = z) by (rewrite Hq; apply Qfloor_Z).
  rewrite Hf.
  assert (Hc : ((q - inject_Z z)%Q ?= (1 # 2)%Q)%Q = Lt).
  { apply Qlt_alt.
    setoid_replace (q - inject_Z z)%Q with 0%Q by (rewrite Hq; ring).
    reflexivity. }
  now rewrite Hc.
Qed.

Lemma round_half_even_le (q : Q) (z : Z) :
  (q <= inject_Z z)%Q -> (PyFloat.round_half_even q <= z)%Z.
Proof.
  intros H. pose proof (round_half_even_near q) as Hn.
  apply Qabs_Qle_condition in Hn. destruct Hn as [_ Hn].
  assert (Hlt : (inject_Z (PyFloat.round_half_even q) < inject_Z (z + 1))%Q).
  { rewrite inject_Z_plus. change (inject_Z 1) with 1%Q. lra. }
  rewrite <- Zlt_Qlt in Hlt. lia.
Qed.

Lemma round_half_even_ge (q : Q) (z : Z) :
  (inject_Z z <= q)%Q -> (z <= PyFloat.round_half_even q)%Z.
Proof.
  intros H. pose proof (round_half_even_near q) as Hn.
  apply Qabs_Qle_condition in Hn. destruct Hn as [Hn _].
  assert (Hlt : (inject_Z (z - 1) < inject_Z (PyFloat.round_half_even q))%Q).
  { unfold Z.sub. rewrite inject_Z_plus, inject_Z_opp.
    change (inject_Z 1) with 1%Q. lra. }
  rewrite <- Zlt_Qlt in Hlt. lia.
Qed.

(** The rounded value is negative exactly below one half under zero. *)
Lemma round_half_even_sign (q : Q) :
  (0 <= PyFloat.round_half_even q)%Z <-> (- (1 # 2) <= q)%Q.
Proof.
  split.
  - intros H. pose proof (round_half_even_near q) as Hn.
    apply Qabs_Qle_condition in Hn. destruct Hn as [_ Hn].
    rewrite Zle_Qle in H. change (inject_Z 0) with 0%Q in H. lra.
  - intros H. destruct (Qlt_le_dec q 0) as [Hneg|Hpos];
      [|now apply round_half_even_nonneg].
    assert (Hf : Qfloor q = (-1)%Z).
    { pose proof (Qfloor_le q) as Hlo. pose proof (Qlt_floor q) as Hhi.
      assert (H1 : (inject_Z (Qfloor q) < inject_Z 0)%Q)
        by (change (inject_Z 0) with 0%Q; lra).
      assert (H2 : (inject_Z (-1) < inject_Z (Qfloor q + 1))%Q)
        by (change (inject_Z (-1)) with (- (1))%Q; lra).
      rewrite <- Zlt_Qlt in H1, H2. lia. }
    unfold PyFloat.round_half_even. rewrite Hf.
    change (inject_Z (-1)) with (- (1))%Q. change (Z.even (-1)) with false.
    destruct (Qcompare_spec (q - - (1)) (1 # 2)) as [E|L|G]; try lia.
    exfalso. lra.
Qed.

(* ================================================================== *)
(** * Binary64 arithmetic *)

Section Binary64Facts.

Import PyFloat.

Lemma two_neq_0 : ~ (2 # 1 == 0)%Q.
Proof. discriminate. Qed.

Lemma pow2_pos (z : Z) : (0 < pow2 z)%Q.
Proof. apply Qpower_0_lt. reflexivity. Qed.

Lemma pow2_add (a b : Z) : (pow2 (a + b) == pow2 a * pow2 b)%Q.
Proof. apply Qpower_plus, two_neq_0. Qed.

Lemma pow2_cancel (t : Z) : (pow2 (- t) * pow2 t == 1)%Q.
Proof.
  rewrite <- pow2_add. replace (- t + t)%Z with 0%Z by lia. reflexivity.
Qed.

Lemma pow2_Z (z : Z) : (0 <= z)%Z -> (pow2 z == inject_Z (2 ^ z))%Q.
Proof. intros H. unfold pow2. now rewrite Zpower_Qpower. Qed.

Lemma pow2_le (a b : Z) : (a <= b)%Z -> (pow2 a <= pow2 b)%Q.
Proof. intros H. apply Qpower_le_compat_l; [exact H | discriminate]. Qed.

(** [ilog2] is not above the binary logarithm. *)
Lemma ilog2_upper (q : Q) : (0 < q)%Q -> (q < pow2 (ilog2 q + 1))%Q.
Proof.
  intros Hq. unfold ilog2.
  set (k := (Z.log2 (Qnum q) - Z.log2 (Z.pos (Qden q)))%Z).
  destruct (Qle_bool (pow2 k) q) eqn:E.
  - destruct q as [n d]. cbn [Qnum Qden] in *.
    assert (Hn : (0 < n)%Z).
    { unfold Qlt in Hq. cbn in Hq. lia. }
    pose proof (Z.log2_spec n Hn) as [_ Hhi].
    pose proof (Z.log2_spec (Z.pos d) (Pos2Z.is_pos d)) as [Hlo _].
    pose proof (Z.log2_nonneg n) as Hn0.
    pose proof (Z.log2_nonneg (Z.pos d)) as Hd0.
    assert (H1 : ((n # d) * pow2 (Z.log2 (Z.pos d))
                  < pow2 (Z.log2 n + 1))%Q).
    { rewrite (pow2_Z (Z.log2 (Z.pos d))), (pow2_Z (Z.log2 n + 1)) by lia.
      apply Qle_lt_trans with (inject_Z n).
      - apply Qle_trans with ((n # d) * inject_Z (Z.pos d))%Q.
        + apply Qmult_le_l; [exact Hq|]. rewrite <- Zle_Qle. exact Hlo.
        + unfold Qle, Qmult, inject_Z. cbn [Qnum Qden].
          rewrite Pos.mul_1_r, Z.mul_1_r. lia.
      - rewrite <- Zlt_Qlt.
        replace (Z.log2 n + 1)%Z with (Z.succ (Z.log2 n)) by lia.
        exact Hhi. }
    replace (k + 1)%Z with ((Z.log2 n + 1) + - Z.log2 (Z.pos d))%Z
      by (unfold k; lia).
    rewrite pow2_add.
    apply Qmult_lt_r with (pow2 (Z.log2 (Z.pos d))); [apply pow2_pos|].
    rewrite <- Qmult_assoc, pow2_cancel, Qmult_1_r. exact H1.
  - replace (k - 1 + 1)%Z with k by lia.
    apply Qnot_le_lt. intros H. apply Qle_bool_iff in H. congruence.
Qed.

Lemma ilog2_Z (z : Z) : (0 < z)%Z -> ilog2 (inject_Z z) = Z.log2 z.
Proof.
  intros Hz. unfold ilog2, inject_Z. cbn [Qnum Qden].
  change (Z.log2 1) with 0%Z. rewrite Z.sub_0_r.
  assert (E : Qle_bool (pow2 (Z.log2 z)) (z # 1) = true).
  { apply Qle_bool_iff. rewrite pow2_Z by apply Z.log2_nonneg.
    change (z # 1) with (inject_Z z). rewrite <- Zle_Qle.
    now apply Z.log2_spec. }
  now rewrite E.
Qed.

(** The mantissa has at most 53 bits. *)
Lemma mantissa_bounds (a : Q) :
  (0 < a)%Q -> (0 <= mantissa a <= 2 ^ 53)%Z.
Proof.
  intros Ha. unfold mantissa. split.
  - apply round_half_even_nonneg. apply Qmult_le_0_compat.
    + now apply Qlt_le_weak.
    + apply Qlt_le_weak, pow2_pos.
  - apply round_half_even_le.
    rewrite <- (pow2_Z 53) by lia.
    apply Qle_trans with (pow2 (ilog2 a + 1) * pow2 (- ulp_exponent a))%Q.
    + apply Qmult_le_compat_r.
      * apply Qlt_le_weak. now apply ilog2_upper.
      * apply Qlt_le_weak, pow2_pos.
    + rewrite <- pow2_add. apply pow2_le. unfold ulp_exponent. lia.
Qed.

(** A positive integer of at most 53 bits is not rounded. *)
Lemma round_abs_Z (z : Z) :
  (0 < z <= 2 ^ 53)%Z -> (round_abs (inject_Z z) == inject_Z z)%Q.
Proof.
  intros [Hz Hb].
  assert (HL : (0 <= Z.log2 z <= 53)%Z).
  { split; [apply Z.log2_nonneg|].
    change 53%Z with (Z.log2 (2 ^ 53)). now apply Z.log2_le_mono. }
  assert (Ht : ulp_exponent (inject_Z z) = (Z.log2 z - 52)%Z).
  { unfold ulp_exponent. rewrite ilog2_Z by exact Hz. lia. }
  unfold round_abs, mantissa. rewrite Ht.
  destruct (Z.eq_dec (Z.log2 z) 53) as [E53|N53].
  - assert (z = 2 ^ 53)%Z.
    { pose proof (Z.log2_spec z Hz) as [Hlo _]. rewrite E53 in Hlo. lia. }
    subst z. vm_compute. reflexivity.
  - replace (- (Z.log2 z - 52))%Z with (52 - Z.log2 z)%Z by lia.
    assert (Hs : (inject_Z z * pow2 (52 - Z.log2 z)
                  == inject_Z (z * 2 ^ (52 - Z.log2 z)))%Q).
    { rewrite pow2_Z by lia. now rewrite inject_Z_mult. }
    rewrite (round_half_even_int _ _ Hs), inject_Z_mult, <- pow2_Z by lia.
    rewrite <- Qmult_assoc.
    replace (Z.log2 z - 52)%Z with (- (52 - Z.log2 z))%Z by lia.
    setoid_replace (pow2 (52 - Z.log2 z) * pow2 (- (52 - Z.log2 z)))%Q
      with 1%Q.
    + apply Qmult_1_r.
    + rewrite Qmult_comm. apply pow2_cancel.
Qed.

Lemma round_abs_small (a : Q) : (0 < a)%Q -> integer_or_small (round_abs a).
Proof.
  intros Ha. pose proof (mantissa_bounds a Ha) as [Hm0 Hm].
  unfold round_abs. destruct (Z_le_gt_dec 0 (ulp_exponent a)) as [Ht|Ht].
  - left. exists (mantissa a * 2 ^ ulp_exponent a)%Z.
    rewrite pow2_Z by exact Ht. now rewrite inject_Z_mult.
  - right. rewrite Qabs_pos.
    + apply Qle_trans with (inject_Z (2 ^ 53) * pow2 (-1))%Q.
      * apply Qmult_le_compat_nonneg.
        -- split; [change 0%Q with (inject_Z 0)|]; rewrite <- Zle_Qle; lia.
        -- split; [apply Qlt_le_weak, pow2_pos | apply pow2_le; lia].
      * vm_compute. discriminate.
    + apply Qmult_le_0_compat.
      * change 0%Q with (inject_Z 0). rewrite <- Zle_Qle. exact Hm0.
      * apply Qlt_le_weak, pow2_pos.
Qed.

Lemma integer_or_small_comp (p q : Q) :
  (p == q)%Q -> integer_or_small p -> integer_or_small q.
Proof.
  intros E [(z & H)|H]; [left; exists z | right]; now rewrite <- E.
Qed.

Lemma integer_or_small_opp (q : Q) :
  integer_or_small q -> integer_or_small (- q).
Proof.
  intros [(z & H)|H].
  - left. exists (- z)%Z. now rewrite inject_Z_opp, H.
  - right. now rewrite Qabs_opp.
Qed.

(** Every finite value of [round64] is an integer or small. *)
Lemma round64_small (x q : Q) : round64 x = Fin q -> integer_or_small q.
Proof.
  unfold round64. destruct (Qcompare_spec (Qred x) 0) as [E|L|G].
  - intros [= <-]. left. now exists 0%Z.
  - destruct (Qle_bool _ _); [discriminate|]. intros [= <-].
    apply (integer_or_small_comp (- round_abs (- Qred x))).
    + symmetry. exact (Qred_correct (- round_abs (- Qred x))).
    + apply integer_or_small_opp, round_abs_small. lra.
  - destruct (Qle_bool _ _); [discriminate|]. intros [= <-].
    apply (integer_or_small_comp (round_abs (Qred x))).
    + symmetry. exact (Qred_correct (round_abs (Qred x))).
    + now apply round_abs_small.
Qed.

Lemma Qred_Z (q : Q) (z : Z) : (q == inject_Z z)%Q -> Qred q = inject_Z z.
Proof.
  intros H. rewrite (Qred_complete _ _ H). unfold inject_Z, Qred.
  cbn [Qnum Qden].
  pose proof (Z.ggcd_correct_divisors z 1) as Hd.
  pose proof (Z.ggcd_gcd z 1) as Hg.
  destruct (Z.ggcd z 1) as [g [a b]]. cbn [fst snd] in *.
  rewrite Z.gcd_1_r in Hg. subst g. destruct Hd as [-> Hb].
  assert (b = 1%Z) by lia. subst b. rewrite Z.mul_1_l. reflexivity.
Qed.

(** A whole number of magnitude at most 2^53 is a binary64 number: the
    conversion does not change it. *)
Lemma round64_Z (x : Q) (z : Z) :
  (x == inject_Z z)%Q -> (Z.abs z <= 2 ^ 53)%Z ->
  round64 x = Fin (inject_Z z).
Proof.
  intros Hx Hz. unfold round64. rewrite (Qred_Z _ _ Hx).
  assert (Hbig : forall v w, (v == inject_Z w)%Q -> (w <= 2 ^ 53)%Z ->
                             Qle_bool (pow2 1024) v = false).
  { intros v w Hv Hw. destruct (Qle_bool _ _) eqn:E; [|reflexivity].
    apply Qle_bool_iff in E. rewrite Hv, pow2_Z in E by lia.
    rewrite <- Zle_Qle in E.
    assert (2 ^ 53 < 2 ^ 1024)%Z by (apply Z.pow_lt_mono_r; lia). lia. }
  destruct (Qcompare_spec (inject_Z z) 0) as [E|L|G].
  - change 0%Q with (inject_Z 0) in E.
    apply (proj1 (inject_Z_injective z 0)) in E. now subst z.
  - change 0%Q with (inject_Z 0) in L. rewrite <- Zlt_Qlt in L.
    assert (Hr : (round_abs (- inject_Z z) == inject_Z (- z))%Q).
    { rewrite <- inject_Z_opp. apply round_abs_Z. lia. }
    rewrite (Hbig _ (- z)%Z Hr) by lia. f_equal. apply Qred_Z.
    rewrite Hr, inject_Z_opp. ring.
  - change 0%Q with (inject_Z 0) in G. rewrite <- Zlt_Qlt in G.
    assert (Hr : (round_abs (inject_Z z) == inject_Z z)%Q).
    { apply round_abs_Z. lia. }
    rewrite (Hbig _ z Hr) by lia. f_equal. now apply Qred_Z.
Qed.

(** A binary64 number half way between two integers is small. *)
Lemma integer_or_small_tie (q : Q) (n : Z) :
  integer_or_small q -> (q == inject_Z n + (1 # 2))%Q ->
  (- 2 ^ 52 <= n < 2 ^ 52)%Z.
Proof.
  intros [(z & Hz)|Hb] Hq.
  - exfalso. rewrite Hz in Hq.
    assert (H2 : (inject_Z (2 * z) == inject_Z (2 * n + 1))%Q).
    { rewrite !inject_Z_plus, !inject_Z_mult, Hq.
      change (inject_Z 2) with 2%Q. change (inject_Z 1) with 1%Q. ring. }
    apply (proj1 (inject_Z_injective _ _)) in H2. lia.
  - apply Qabs_Qle_condition in Hb. destruct Hb as [Hlo Hhi].
    rewrite Hq in Hlo, Hhi.
    assert (H1 : (inject_Z n < inject_Z (2 ^ 52))%Q) by lra.
    assert (H2 : (inject_Z (- 2 ^ 52 - 1) < inject_Z n)%Q).
    { unfold Z.sub. rewrite inject_Z_plus, !inject_Z_opp.
      change (inject_Z 1) with 1%Q. lra. }
    rewrite <- Zlt_Qlt in H1, H2. lia.
Qed.

(** The rounding of a binary64 number between -2^63 and 2^63 fits
    int64. *)
Lemma round_in_int64 (q : Q) :
  integer_or_small q ->
  (inject_Z int64_min <= q)%Q -> (q < inject_Z (2 ^ 63))%Q ->
  in_int64 (round_half_even q) = true.
Proof.
  intros Hq Hlo Hhi. unfold in_int64. apply andb_true_iff.
  rewrite !Z.leb_le. split; [now apply round_half_even_ge|].
  destruct Hq as [(z & Hz)|Hs].
  - rewrite (round_half_even_int q z Hz). rewrite Hz in Hhi.
    rewrite <- Zlt_Qlt in Hhi. unfold int64_max. lia.
  - apply Qabs_Qle_condition in Hs. destruct Hs as [_ Hs].
    apply Z.le_trans with (2 ^ 52)%Z; [now apply round_half_even_le|].
    unfold int64_max. lia.
Qed.

Lemma add_small (x y : pyfloat) (q : Q) :
  add x y = Fin q -> integer_or_small q.
Proof.
  destruct x as [a| | |], y as [b| | |]; cbn [add]; try discriminate.
  apply round64_small.
Qed.

(** The sum of a group is a binary64 number. *)
Lemma sum_skipna_small (l : list pyfloat) (q : Q) :
  sum_skipna l = Fin q -> integer_or_small q.
Proof.
  unfold sum_skipna.
  assert (H : forall l' st,
             (forall q', fst st = Fin q' -> integer_or_small q') ->
             forall q', fst (fold_left kahan_step l' st) = Fin q' ->
                        integer_or_small q').
  { induction l' as [|x l' IH]; intros st Hst; cbn [fold_left];
      [exact Hst|].
    apply IH. destruct st as [sumx c]. unfold kahan_step. cbn [fst].
    intros q'. apply add_small. }
  apply H. cbn [fst]. intros q' [= <-]. left. now exists 0%Z.
Qed.

Lemma add_Z (a b : Q) (x y : Z) :
  (a == inject_Z x)%Q -> (b == inject_Z y)%Q ->
  (Z.abs (x + y) <= 2 ^ 53)%Z ->
  add (Fin a) (Fin b) = Fin (inject_Z (x + y)).
Proof.
  intros Ha Hb H. cbn [add]. apply round64_Z; [|exact H].
  rewrite Ha, Hb, inject_Z_plus. reflexivity.
Qed.

Lemma sub_Z (a b : Q) (x y : Z) :
  (a == inject_Z x)%Q -> (b == inject_Z y)%Q ->
  (Z.abs (x - y) <= 2 ^ 53)%Z ->
  sub (Fin a) (Fin b) = Fin (inject_Z (x - y)).
Proof.
  intros Ha Hb H. unfold sub. cbn [neg]. apply (add_Z a (- b) x (- y)).
  - exact Ha.
  - rewrite Hb, inject_Z_opp. reflexivity.
  - exact H.
Qed.

(** On whole numbers of bounded magnitude the compensated summation is
    the exact one, and the compensation stays zero. *)
Lemma kahan_step_exact (S : Z) (f : pyfloat) :
  whole f -> (Z.abs S + Z.abs (whole_part f) <= 2 ^ 53)%Z ->
  kahan_step (Fin (inject_Z S), zero) f
  = (Fin (inject_Z (S + whole_part f)), zero).
Proof.
  destruct f as [q| | |]; cbn [whole whole_part]; try tauto.
  intros Hq Hb. set (z := Qfloor q) in *. unfold kahan_step, zero.
  rewrite (sub_Z q 0 z 0 Hq) by (reflexivity || lia).
  rewrite Z.sub_0_r.
  rewrite (add_Z (inject_Z S) (inject_Z z) S z) by (reflexivity || lia).
  rewrite (sub_Z (inject_Z (S + z)) (inject_Z S) (S + z) S)
    by (reflexivity || lia).
  replace (S + z - S)%Z with z by lia.
  rewrite (sub_Z (inject_Z z) (inject_Z z) z z) by (reflexivity || lia).
  rewrite Z.sub_diag. reflexivity.
Qed.

Lemma kahan_exact (l : list pyfloat) :
  Forall whole l ->
  forall S, (Z.abs S + magnitude_sum l <= 2 ^ 53)%Z ->
    fold_left kahan_step (filter (fun f => negb (isnan f)) l)
              (Fin (inject_Z S), zero)
    = (Fin (inject_Z (S + exact_sum l)), zero).
Proof.
  induction 1 as [|x l Hx _ IH]; intros S Hb;
    unfold magnitude_sum, exact_sum in *; cbn [map fold_right filter] in *.
  - cbn [fold_left]. now rewrite Z.add_0_r.
  - assert (Hm : (0 <= fold_right Z.add 0
                          (map (fun f => Z.abs (whole_part f)) l))%Z).
    { clear. induction l as [|y l IH]; cbn [map fold_right]; lia. }
    assert (En : isnan x = false) by (destruct x; try reflexivity; destruct Hx).
    rewrite En. cbn [negb fold_left].
    rewrite kahan_step_exact by (exact Hx || lia).
    rewrite IH by lia. now rewrite Z.add_assoc.
Qed.

Lemma sum_skipna_exact (l : list pyfloat) :
  exact_group l -> sum_skipna l = Fin (inject_Z (exact_sum l)).
Proof.
  intros [Hw Hb]. unfold sum_skipna.
  change (zero, zero) with (Fin (inject_Z 0), zero).
  rewrite (kahan_exact l Hw 0%Z) by (cbn; lia). reflexivity.
Qed.

Lemma magnitude_sum_nonneg (l : list pyfloat) : (0 <= magnitude_sum l)%Z.
Proof.
  unfold magnitude_sum. induction l as [|y l IH]; cbn [map fold_right]; lia.
Qed.

Lemma exact_sum_bound (l : list pyfloat) :
  (Z.abs (exact_sum l) <= magnitude_sum l)%Z.
Proof.
  unfold magnitude_sum, exact_sum.
  induction l as [|y l IH]; cbn [map fold_right]; lia.
Qed.





Lemma nonneg_exact_sum (l : list pyfloat) :
  Forall nonneg l -> (0 <= exact_sum l)%Z.
Proof.
  unfold exact_sum. induction 1 as [|x l Hx _ IH]; cbn [map fold_right];
    [lia|].
  assert (0 <= whole_part x)%Z; [|lia].
  destruct x as [q| | |]; cbn [whole_part nonneg] in *; try lia.
  change 0%Z with (Qfloor 0). now apply Qfloor_resp_le.
Qed.

End Binary64Facts.

Lemma cast_int64_in_range (z : Z) : in_int64 (cast_int64 z) = true.
Proof.
  unfold cast_int64. destruct (in_int64 z) eqn:E; [exact E | reflexivity].
Qed.

Lemma cast_int64_id (z : Z) : in_int64 z = true -> cast_int64 z = z.
Proof. intros H. unfold cast_int64. now rewrite H. Qed.

Lemma exact_group_filter (p : key * pyfloat -> bool)
      (rows : list (key * pyfloat)) :
  exact_group (map snd rows) -> exact_group (map snd (filter p rows)).
Proof.
  intros [Hw Hb]. split.
  - apply Forall_forall. intros f Hf. rewrite Forall_forall in Hw.
    apply Hw. apply in_map_iff in Hf. destruct Hf as (r & <- & Hr).
    apply in_map. apply filter_In in Hr. tauto.
  - eapply Z.le_trans; [|exact Hb]. clear.
    unfold magnitude_sum.
    induction rows as [|r rows IH]; cbn [filter map fold_right]; [lia|].
    destruct (p r); cbn [map fold_right]; lia.
Qed.

(* ================================================================== *)
(** * The aggregated table *)

Lemma rmapM_Ok {A B} (f : A -> result B) (l : list A) :
  forall ys, rmapM f l = Ok ys -> Forall2 (fun x y => f x = Ok y) l ys.
Proof.
  induction l as [|x l IH]; cbn [rmapM]; intros ys H.
  - injection H as <-. constructor.
  - destruct (f x) as [y|e] eqn:Ex; cbn [rbind] in H; [|discriminate].
    destruct (rmapM f l) as [ys'|e]; cbn [rbind] in H; [|discriminate].
    injection H as <-. constructor; auto.
Qed.

Lemma to_line_Ok (g : key * pyfloat) (l : audit_line) :
  to_line g = Ok l ->
  key_of l = fst g
  /\ exists q, snd g = Fin q
               /\ System_Qty l = cast_int64 (PyFloat.round_half_even q).
Proof.
  destruct g as [[[[c b] p] n] f]. unfold to_line, rmap. cbn [fst snd].
  destruct f as [q| | |]; cbn [round_astype_int rbind]; try discriminate.
  intros [= <-]. split; [reflexivity|]. exists q. split; reflexivity.
Qed.

Lemma to_lines_keys (gs : list (key * pyfloat)) (ls : list audit_line) :
  rmapM to_line gs = Ok ls -> map key_of ls = map fst gs.
Proof.
  intros H. apply rmapM_Ok in H.
  induction H as [|g l gs ls Hg _ IH]; [reflexivity|].
  cbn [map]. f_equal; [|assumption]. now apply to_line_Ok in Hg.
Qed.

Lemma groupby_sum_keys (rows : list (key * pyfloat)) :
  map fst (groupby_sum rows) = group_keys rows.
Proof.
  unfold groupby_sum, group_keys. rewrite map_map. cbn [fst]. apply map_id.
Qed.

Lemma group_keys_In (rows : list (key * pyfloat)) (k : key) :
  In k (group_keys rows) <-> In k (map fst rows).
Proof.
  unfold group_keys. rewrite <- (unique_In key_compare (map fst rows) k).
  split; intros H.
  - eapply Permutation_in; [|exact H].
    apply (sort_by_perm key_compare (fun x => x)).
  - eapply Permutation_in; [|exact H]. symmetry.
    apply (sort_by_perm key_compare (fun x => x)).
Qed.

Lemma group_keys_sorted (rows : list (key * pyfloat)) :
  StronglySorted (fun k1 k2 => key_compare k1 k2 = Lt) (group_keys rows).
Proof.
  apply (sort_by_sorted key_compare (fun x => x)).
  rewrite map_id. apply (unique_NoDup key_compare).
Qed.

(** What a successful run returns: the lines are those of the groups,
    sorted once more. *)
Lemma process_Ok (df : list package) (lines : list audit_line) :
  process_packages_to_audit df = Ok lines ->
  exists lines0,
    rmapM to_line (groupby_sum (map normalize df)) = Ok lines0
    /\ lines = sort_values lines0.
Proof.
  unfold process_packages_to_audit, rmap.
  destruct (rmapM to_line _) as [lines0|e]; cbn [rbind]; [|discriminate].
  intros [= <-]. now exists lines0.
Qed.

Lemma sort_values_perm (ls : list audit_line) :
  Permutation (sort_values ls) ls.
Proof. apply (sort_by_perm key_compare key_of). Qed.

Lemma process_keys_perm (df : list package) (lines : list audit_line) :
  process_packages_to_audit df = Ok lines ->
  Permutation (map key_of lines) (group_keys (map normalize df)).
Proof.
  intros H. apply process_Ok in H. destruct H as (lines0 & H0 & ->).
  rewrite <- groupby_sum_keys, <- (to_lines_keys _ _ H0).
  apply Permutation_map, sort_values_perm.
Qed.

Lemma process_keys_NoDup (df : list package) (lines : list audit_line) :
  process_packages_to_audit df = Ok lines -> NoDup (map key_of lines).
Proof.
  intros H. eapply Permutation_NoDup.
  - symmetry. apply (process_keys_perm _ _ H).
  - rewrite <- (map_id (group_keys _)).
    apply (sorted_lt_NoDup key_compare (fun x => x)), group_keys_sorted.
Qed.

Lemma process_sorted (df : list package) (lines : list audit_line) :
  process_packages_to_audit df = Ok lines -> StronglySorted key_lt lines.
Proof.
  intros H. pose proof (process_keys_NoDup _ _ H) as Hnd.
  apply process_Ok in H. destruct H as (lines0 & _ & ->).
  apply (sort_by_sorted key_compare key_of).
  eapply Permutation_NoDup; [|exact Hnd].
  apply Permutation_map, sort_values_perm.
Qed.

(** Every line carries the rounded sum of its group, cast to int64. *)
Lemma process_line (df : list package) (lines : list audit_line)
      (l : audit_line) :
  process_packages_to_audit df = Ok lines -> In l lines ->
  In (key_of l) (map fst (map normalize df))
  /\ exists q,
      sum_skipna (group_of (key_of l) (map normalize df)) = Fin q
      /\ System_Qty l = cast_int64 (PyFloat.round_half_even q).
Proof.
  intros H Hl. apply process_Ok in H. destruct H as (lines0 & H0 & ->).
  apply (Permutation_in _ (sort_values_perm lines0)) in Hl.
  apply rmapM_Ok in H0.
  assert (Hg : exists g, In g (groupby_sum (map normalize df))
                         /\ to_line g = Ok l).
  { clear -H0 Hl. induction H0 as [|g y gs ls Hg _ IH]; [destruct Hl|].
    destruct Hl as [<-|Hl].
    - exists g. split; [now left | assumption].
    - destruct (IH Hl) as (g' & Hin & E). exists g'. split; [now right|assumption]. }
  destruct Hg as (g & Hin & Hg). apply to_line_Ok in Hg.
  destruct Hg as (Ek & q & Eq & Es).
  unfold groupby_sum in Hin. apply in_map_iff in Hin.
  destruct Hin as (k & <- & Hk). cbn [fst snd] in *. rewrite Ek. split.
  - now apply group_keys_In.
  - exists q. split; assumption.
Qed.

Lemma key_eqb_true (k1 k2 : key) : key_eqb k1 k2 = true <-> k1 = k2.
Proof. apply (eqb_of_true key_compare). Qed.

Lemma group_of_In (k : key) (rows : list (key * pyfloat)) (f : pyfloat) :
  In f (group_of k rows) <-> In (k, f) rows.
Proof.
  unfold group_of. rewrite in_map_iff. split.
  - intros ([k' f'] & <- & H). apply filter_In in H. destruct H as [H E].
    cbn [fst snd] in *. apply key_eqb_true in E. now subst.
  - intros H. exists (k, f). split; [reflexivity|]. apply filter_In.
    split; [assumption|]. now apply key_eqb_true.
Qed.


(** The keys of the lines are the sorted distinct keys of the rows. *)
Lemma process_keys (df : list package) (lines : list audit_line) :
  process_packages_to_audit df = Ok lines ->
  map key_of lines = group_keys (map normalize df).
Proof.
  intros H. apply (sorted_unique key_compare).
  - pose proof (process_sorted _ _ H) as Hs. clear H.
    induction Hs as [|a l Hs IH Ha]; cbn [map]; constructor; [exact IH|].
    apply Forall_forall. intros k Hk. apply in_map_iff in Hk.
    destruct Hk as (b & <- & Hb). rewrite Forall_forall in Ha.
    exact (Ha b Hb).
  - apply group_keys_sorted.
  - intros k. split; apply Permutation_in;
      [|symmetry]; apply (process_keys_perm _ _ H).
Qed.



(** In an exact group the System_Qty is the sum itself. *)
Lemma process_line_exact (df : list package) (lines : list audit_line)
      (l : audit_line) :
  process_packages_to_audit df = Ok lines -> In l lines ->
  exact_group (group_of (key_of l) (map normalize df)) ->
  System_Qty l = exact_sum (group_of (key_of l) (map normalize df)).
Proof.
  intros H Hl He. destruct (process_line _ _ _ H Hl) as (_ & q & Hq & ->).
  rewrite (sum_skipna_exact _ He) in Hq. injection Hq as <-.
  rewrite (round_half_even_int _ _ (Qeq_refl _)).
  apply cast_int64_id. unfold in_int64, int64_min, int64_max.
  pose proof (exact_sum_bound (group_of (key_of l) (map normalize df))).
  destruct He as [_ Hb]. apply andb_true_iff. rewrite !Z.leb_le. lia.
Qed.

(* ================================================================== *)
(** * Properties of the aggregated table *)

(** The end-to-end example of the specification. *)
Example process_example :
  process_packages_to_audit [sample_row "5"; sample_row "3"]
  = Ok [sample_line 8].
Proof. vm_compute. reflexivity. Qed.

(** C3, as stated, fails: a row whose quantity is -5 gives a line whose
    System_Qty is -5; nothing in the program rejects or clamps a negative
    quantity. *)
Lemma C3_negative_counterexample :
  process_packages_to_audit [sample_row "-5"] = Ok [sample_line (-5)]
  /\ (System_Qty (sample_line (-5)) < 0)%Z.
Proof. split; vm_compute; reflexivity. Qed.

(** A sum of 2^63 or more does not fit int64: the quantity 1e19 comes out
    as the least int64. *)
Example cast_out_of_range_example :
  process_packages_to_audit [sample_row "1e19"]
  = Ok [sample_line int64_min].
Proof. vm_compute. reflexivity. Qed.

(** C3 (amended): every line of the aggregated table has an int64
    System_Qty.  When the summed quantity of the group of a line is below
    2^63, the System_Qty is non-negative exactly when that sum is at least
    -1/2; in particular it is non-negative when the coerced quantities of
    the group are non-negative whole numbers whose total is at most
    2^53. *)
Theorem C3_system_qty_sign (df : list package) (lines : list audit_line)
        (l : audit_line) :
  process_packages_to_audit df = Ok lines ->
  In l lines ->
  in_int64 (System_Qty l) = true
  /\ (exists q,
         sum_skipna (group_of (key_of l) (map normalize df)) = Fin q
         /\ ((q < inject_Z (2 ^ 63))%Q ->
             ((0 <= System_Qty l)%Z <-> (- (1 # 2) <= q)%Q)))
  /\ (exact_group (group_of (key_of l) (map normalize df)) ->
      Forall nonneg (group_of (key_of l) (map normalize df)) ->
      (0 <= System_Qty l)%Z).
Proof.
  intros H Hl. split; [|split].
  - destruct (process_line _ _ _ H Hl) as (_ & q' & _ & ->).
    apply cast_int64_in_range.
  - destruct (process_line _ _ _ H Hl) as (_ & q & Hq & ->).
    exists q. split; [exact Hq|]. intros Hb.
    destruct (in_int64 (PyFloat.round_half_even q)) eqn:Er.
    + rewrite (cast_int64_id _ Er). apply round_half_even_sign.
    + unfold cast_int64. rewrite Er. split.
      * unfold int64_min. lia.
      * intros Hlo. exfalso.
        rewrite round_in_int64 in Er; [discriminate| | |exact Hb].
        -- apply (sum_skipna_small _ _ Hq).
        -- apply Qle_trans with (- (1 # 2))%Q; [|exact Hlo].
           vm_compute. discriminate.
  - intros He Hnn. rewrite (process_line_exact _ _ _ H Hl He).
    now apply nonneg_exact_sum.
Qed.

Lemma C3_system_qty_sign_witness :
  process_packages_to_audit [sample_row "5"; sample_row "3"]
  = Ok [sample_line 8]
  /\ in_int64 (System_Qty (sample_line 8)) = true.
Proof.
  split; [vm_compute; reflexivity|].
  apply (C3_system_qty_sign [sample_row "5"; sample_row "3"]
                            [sample_line 8] (sample_line 8)).
  - vm_compute. reflexivity.
  - left. reflexivity.
Defined.







(** C10: the rounding of a group's summed quantity is round-half-to-even:
    when the sum is exactly half way between the integers [n] and [n + 1],
    System_Qty is the even one of the two. *)
Theorem C10_round_half_even (df : list package) (lines : list audit_line)
        (l : audit_line) (q : Q) (n : Z) :
  process_packages_to_audit df = Ok lines ->
  In l lines ->
  sum_skipna (group_of (key_of l) (map normalize df)) = Fin q ->
  (q == inject_Z n + (1 # 2))%Q ->
  Z.even (System_Qty l) = true
  /\ (System_Qty l = n \/ System_Qty l = (n + 1)%Z).
Proof.
  intros H Hl Hq Hn. destruct (process_line _ _ _ H Hl) as (_ & q' & Hq' & ->).
  rewrite Hq in Hq'. injection Hq' as <-.
  pose proof (integer_or_small_tie q n (sum_skipna_small _ _ Hq) Hn) as Hb.
  pose proof (round_half_even_tie q n Hn) as Ht.
  rewrite cast_int64_id; [exact Ht|].
  unfold in_int64, int64_min, int64_max. apply andb_true_iff.
  rewrite !Z.leb_le. destruct Ht as [_ [-> | ->]]; lia.
Qed.

Lemma C10_round_half_even_witness :
  process_packages_to_audit [sample_row "1"; sample_row "0.5"]
  = Ok [sample_line 2]
  /\ Z.even (System_Qty (sample_line 2)) = true.
Proof.
  split; [vm_compute; reflexivity|].
  apply (C10_round_half_even [sample_row "1"; sample_row "0.5"]
                             [sample_line 2] (sample_line 2) (3 # 2) 1).
  - vm_compute. reflexivity.
  - left. reflexivity.
  - vm_compute. reflexivity.
  - vm_compute. reflexivity.
Defined.

Example round_half_even_examples :
  process_packages_to_audit [sample_row "0.5"] = Ok [sample_line 0]
  /\ process_packages_to_audit [sample_row "1.5"] = Ok [sample_line 2]
  /\ process_packages_to_audit [sample_row "2.5"] = Ok [sample_line 2]
  /\ process_packages_to_audit [sample_row "-0.5"] = Ok [sample_line 0].
Proof. repeat split; vm_compute; reflexivity. Qed.

(* ================================================================== *)
(** * The rendered document *)

Lemma category_loop_join (df : list audit_line) (cats : list cell) :
  forall n cat_idx elements,
    n = cat_idx + List.length cats ->
    category_loop df n cat_idx cats elements
    = elements ++ join_sections [PageBreak] (map (category_section df) cats).
Proof.
  induction cats as [|c rest IH]; intros n i els Hn.
  - cbn [category_loop map join_sections]. now rewrite app_nil_r.
  - cbn [category_loop]. destruct rest as [|c' rest'].
    + cbn [List.length] in Hn.
      replace (i <? n - 1) with false
        by (symmetry; apply Nat.ltb_ge; lia).
      reflexivity.
    + cbn [List.length] in Hn.
      replace (i <? n - 1) with true
        by (symmetry; apply Nat.ltb_lt; lia).
      rewrite (IH n (S i)) by (cbn [List.length]; lia).
      cbn [map join_sections]. now rewrite <- !app_assoc.
Qed.

Lemma filter_join_sections (p : flowable -> bool) (sep : list flowable)
      (secs : list (list flowable)) :
  filter p (join_sections sep secs)
  = join_sections (filter p sep) (map (filter p) secs).
Proof.
  induction secs as [|s rest IH]; [reflexivity|].
  destruct rest as [|s' rest']; [reflexivity|].
  change (join_sections sep (s :: s' :: rest'))
    with (s ++ sep ++ join_sections sep (s' :: rest')).
  rewrite !filter_app, IH. reflexivity.
Qed.

Lemma join_singletons {A} (h : A -> flowable) (l : list A) :
  join_sections [] (map (fun c => [h c]) l) = map h l.
Proof.
  induction l as [|c rest IH]; [reflexivity|].
  destruct rest as [|c' rest']; [reflexivity|].
  cbn [map] in *. cbn [join_sections]. cbn [app]. now rewrite <- IH.
Qed.

Lemma join_empties_length {A} (sep : list flowable) (l : list A) :
  List.length (join_sections sep (map (fun _ => []) l))
  = List.length sep * (List.length l - 1).
Proof.
  induction l as [|c rest IH]; [cbn; lia|].
  destruct rest as [|c' rest']; [cbn; lia|].
  change (join_sections sep (map (fun _ => []) (c :: c' :: rest')))
    with (sep ++ join_sections sep (map (fun _ : A => []) (c' :: rest'))).
  rewrite length_app, IH. cbn [List.length]. nia.
Qed.

Lemma join_empties_nil {A} (l : list A) :
  join_sections [] (map (fun _ => []) l) = [].
Proof.
  induction l as [|c rest IH]; [reflexivity|].
  destruct rest as [|c' rest']; [reflexivity|].
  change (join_sections [] (map (fun _ => []) (c :: c' :: rest')))
    with (join_sections [] (map (fun _ : A => []) (c' :: rest'))).
  exact IH.
Qed.

Lemma sections_headings (df : list audit_line) (cats : list cell) :
  filter is_heading (join_sections [PageBreak] (map (category_section df) cats))
  = map (section_heading df) cats.
Proof.
  rewrite filter_join_sections, map_map. cbn [filter is_heading].
  apply join_singletons.
Qed.

Lemma sections_page_breaks (df : list audit_line) (cats : list cell) :
  count is_page_break
        (join_sections [PageBreak] (map (category_section df) cats))
  = List.length cats - 1.
Proof.
  unfold count. rewrite filter_join_sections, map_map.
  cbn [filter is_page_break is_heading section_heading category_section].
  rewrite join_empties_length. cbn [List.length]. lia.
Qed.

Lemma sections_signatures (df : list audit_line) (cats : list cell) :
  count is_signature
        (join_sections [PageBreak] (map (category_section df) cats)) = 0.
Proof.
  unfold count. rewrite filter_join_sections, map_map.
  cbn [filter is_signature section_heading category_section].
  now rewrite join_empties_nil.
Qed.

Lemma count_app (p : flowable -> bool) (l1 l2 : list flowable) :
  count p (l1 ++ l2) = count p l1 + count p l2.
Proof. unfold count. now rewrite filter_app, length_app. Qed.

(** [sorted] of a list of distinct cells, when it does not raise. *)
Lemma py_sorted_Ok (l cats : list cell) :
  NoDup l -> py_sorted l = Ok cats ->
  Permutation cats l /\ StronglySorted cell_lt cats.
Proof.
  intros Hnd. unfold py_sorted.
  destruct (forallb (fun c => negb (isna_cell c)) l).
  - intros [= <-]. split.
    + apply (sort_by_perm cell_compare (fun x => x)).
    + apply (sort_by_sorted cell_compare (fun x => x)). now rewrite map_id.
  - destruct (forallb isna_cell l) eqn:En; [|discriminate].
    intros [= <-]. split; [reflexivity|].
    rewrite forallb_forall in En.
    destruct l as [|a [|b l]].
    + constructor.
    + constructor; constructor.
    + exfalso. inversion Hnd as [|? ? Hn _]; subst. apply Hn. left.
      pose proof (En a (or_introl eq_refl)) as Ha.
      pose proof (En b (or_intror (or_introl eq_refl))) as Hb.
      destruct a, b; try discriminate. reflexivity.
Qed.

(** The flowables of a document that was built. *)
Lemma generate_Ok (df : list audit_line) (sc sb : list string)
      (page_size : string) (w : world) (doc : document) :
  fst (generate_audit_pdf df sc sb page_size w) = Ok doc ->
  exists cats,
    py_sorted (unique cell_eqb (map Category df)) = Ok cats
    /\ doc_pagesize doc = select_pagesize page_size
    /\ doc_elements doc
       = (title_block
          ++ metadata_of df sc sb (clock w (reads w)) (clock w (S (reads w))))
         ++ join_sections [PageBreak] (map (category_section df) cats)
         ++ signature_block.
Proof.
  unfold generate_audit_pdf, bind, datetime_now, ret. cbn [fst clock reads].
  destruct (py_sorted _) as [cats|e]; cbn [rbind]; [|discriminate].
  intros [= <-]. exists cats. cbn [doc_pagesize doc_elements].
  split; [reflexivity|]. split; [reflexivity|].
  rewrite (category_loop_join df cats) by reflexivity.
  now rewrite <- !app_assoc.
Qed.

(** A table whose categories are all present can always be rendered. *)
Lemma generate_succeeds (df : list audit_line) (sc sb : list string)
      (page_size : string) (w : world) :
  (forall r, In r df -> Category r <> None) ->
  exists doc, fst (generate_audit_pdf df sc sb page_size w) = Ok doc.
Proof.
  intros H. unfold generate_audit_pdf, bind, datetime_now, ret.
  cbn [fst clock reads]. unfold py_sorted.
  replace (forallb _ (unique cell_eqb (map Category df))) with true.
  - cbn [rbind]. eexists. reflexivity.
  - symmetry. apply forallb_forall. intros c Hc.
    apply (proj1 (unique_In cell_compare (map Category df) c)) in Hc.
    apply in_map_iff in Hc.
    destruct Hc as (r & <- & Hr). specialize (H r Hr).
    destruct (Category r); [reflexivity | congruence].
Qed.

(** C8: a document that is built for a table with N distinct categories
    consists of the title and metadata blocks, then N category sections
    in ascending order of category with one page break between two
    neighbouring sections (N - 1 page breaks, none for N = 1), then the
    signature block, whose table is the last flowable and holds the lines
    "Audited By:" and "Verified By:", each with a "Date:" field. *)
Theorem C8_sections_and_signature (df : list audit_line)
        (sc sb : list string) (page_size : string) (w : world)
        (doc : document) :
  fst (generate_audit_pdf df sc sb page_size w) = Ok doc ->
  exists cats : list cell,
    Permutation cats (unique cell_eqb (map Category df))
    /\ StronglySorted cell_lt cats
    /\ doc_elements doc
       = (title_block
          ++ metadata_of df sc sb (clock w (reads w)) (clock w (S (reads w))))
         ++ join_sections [PageBreak] (map (category_section df) cats)
         ++ signature_block
    /\ filter is_heading (doc_elements doc) = map (section_heading df) cats
    /\ count is_heading (doc_elements doc)
       = List.length (unique cell_eqb (map Category df))
    /\ count is_page_break (doc_elements doc)
       = List.length (unique cell_eqb (map Category df)) - 1
    /\ count is_signature (doc_elements doc) = 1
    /\ last (doc_elements doc) PageBreak = signature_table
    /\ signature_table
       = Table [[TText "Audited By:"; TText (PyStr.repeat_char "_" 40);
                 TText "Date:"; TText (PyStr.repeat_char "_" 20)];
                [TText ""; TText ""; TText ""; TText ""];
                [TText "Verified By:"; TText (PyStr.repeat_char "_" 40);
                 TText "Date:"; TText (PyStr.repeat_char "_" 20)]]
               [1 * inch; 3 * inch; (7 # 10) * inch; (18 # 10) * inch]%Q
               0 SignatureTableStyle.
Proof.
  intros H. apply generate_Ok in H. destruct H as (cats & Hs & _ & He).
  apply py_sorted_Ok in Hs; [|apply (unique_NoDup cell_compare)].
  destruct Hs as [Hperm Hsorted].
  pose proof (Permutation_length Hperm) as Hlen.
  exists cats. split; [assumption|]. split; [assumption|].
  split; [assumption|]. rewrite He.
  split; [|split; [|split; [|split; [|split]]]].
  - rewrite !filter_app, sections_headings.
    cbn [filter is_heading title_block metadata_of metadata_block
         signature_block signature_table app].
    apply app_nil_r.
  - unfold count. rewrite !filter_app, sections_headings.
    cbn [filter is_heading title_block metadata_of metadata_block
         signature_block signature_table app].
    now rewrite app_nil_r, length_map.
  - rewrite !count_app, sections_page_breaks, Hlen.
    change (count is_page_break title_block) with 0.
    change (count is_page_break (metadata_of _ _ _ _ _)) with 0.
    change (count is_page_break signature_block) with 0. lia.
  - rewrite !count_app, sections_signatures.
    change (count is_signature title_block) with 0.
    change (count is_signature (metadata_of _ _ _ _ _)) with 0.
    change (count is_signature signature_block) with 1. lia.
  - unfold signature_block.
    change [Spacer 1 ((3 # 10) * inch); signature_table]
      with ([Spacer 1 ((3 # 10) * inch)] ++ [signature_table]).
    rewrite !app_assoc. apply last_last.
  - reflexivity.
Qed.

Lemma C8_sections_and_signature_witness :
  render_sample (world_at sample_morning) = Ok sample_document
  /\ count is_page_break (doc_elements sample_document) = 1
  /\ count is_signature (doc_elements sample_document) = 1.
Proof.
  assert (H : render_sample (world_at sample_morning) = Ok sample_document)
    by (vm_compute; reflexivity).
  split; [exact H|].
  destruct (C8_sections_and_signature
              sample_two_categories ["All"] ["All"] "letter"
              (world_at sample_morning) sample_document H)
    as (cats & _ & _ & _ & _ & _ & Hpb & Hsig & _).
  split; [exact Hpb | exact Hsig].
Defined.

(** C2, as stated, fails: the renderer has no timestamp among its
    arguments; it reads the clock itself, so that two calls with the same
    table, selections and page size give different contents at different
    times. *)
Lemma C2_clock_counterexample :
  render_sample (world_at sample_morning)
  <> render_sample (world_at sample_evening).
Proof. vm_compute. discriminate. Qed.

(** C2 (amended): the renderer takes no timestamp; it reads the system
    clock twice (for the date, then for the time) and embeds the two
    readings in the first metadata paragraph.  Its output is a function of
    the filtered table, the selections, the page size and these two clock
    readings: two calls with the same arguments and the same readings
    give the same content, and two calls with the same arguments at
    different readings differ at most in that paragraph. *)
Theorem C2_render_reads_clock (df : list audit_line) (sc sb : list string)
        (page_size : string) (w1 w2 : world) :
  clock w1 (reads w1) = clock w2 (reads w2) ->
  clock w1 (S (reads w1)) = clock w2 (S (reads w2)) ->
  fst (generate_audit_pdf df sc sb page_size w1)
  = fst (generate_audit_pdf df sc sb page_size w2)
  /\ reads (snd (generate_audit_pdf df sc sb page_size w1)) = 2 + reads w1
  /\ (forall doc,
         fst (generate_audit_pdf df sc sb page_size w1) = Ok doc ->
         nth_error (doc_elements doc) 2
         = Some (Paragraph
                   ("<b>Date:</b> " ++ strftime_date (clock w1 (reads w1))
                    ++ " &nbsp;&nbsp;&nbsp; <b>Time:</b> "
                    ++ strftime_time (clock w1 (S (reads w1)))
                    ++ " &nbsp;&nbsp;&nbsp; <b>Unique Batches:</b> "
                    ++ PyStr.of_nat (nunique (map Distru_Batch_Number df)))%string
                   CustomHeader))
  /\ (forall w' doc doc',
         fst (generate_audit_pdf df sc sb page_size w1) = Ok doc ->
         fst (generate_audit_pdf df sc sb page_size w') = Ok doc' ->
         doc_pagesize doc = doc_pagesize doc'
         /\ forall i, i <> 2 ->
              nth_error (doc_elements doc) i = nth_error (doc_elements doc') i).
Proof.
  intros E1 E2. split; [|split; [|split]].
  - unfold generate_audit_pdf, bind, datetime_now, ret.
    cbn [fst clock reads]. now rewrite E1, E2.
  - reflexivity.
  - intros doc H. apply generate_Ok in H. destruct H as (cats & _ & _ & ->).
    reflexivity.
  - intros w' doc doc' H H'.
    apply generate_Ok in H, H'.
    destruct H as (cats & Hs & Hp & ->), H' as (cats' & Hs' & Hp' & ->).
    rewrite Hs in Hs'. injection Hs' as <-.
    split; [congruence|].
    intros [|[|[|i]]] Hi; try reflexivity. contradiction.
Qed.

Lemma C2_render_reads_clock_witness :
  clock (world_at sample_morning) 0
  = clock {| clock := fun _ => sample_morning; reads := 5 |} 5
  /\ clock (world_at sample_morning) 1
     = clock {| clock := fun _ => sample_morning; reads := 5 |} 6
  /\ fst (generate_audit_pdf sample_two_categories ["All"] ["All"] "letter"
            (world_at sample_morning))
     = fst (generate_audit_pdf sample_two_categories ["All"] ["All"] "letter"
              {| clock := fun _ => sample_morning; reads := 5 |}).
Proof.
  split; [reflexivity|]. split; [reflexivity|].
  apply (C2_render_reads_clock sample_two_categories ["All"] ["All"] "letter"
           (world_at sample_morning)
           {| clock := fun _ => sample_morning; reads := 5 |});
    reflexivity.
Defined.

(* ================================================================== *)
(** * Further properties of brand extraction *)

Lemma lstrip_head (s : string) :
  PyStr.lstrip s = EmptyString
  \/ exists c r, PyStr.lstrip s = String c r /\ PyStr.isspace c = false.
Proof.
  induction s as [|c s IH]; [now left|].
  cbn [PyStr.lstrip]. destruct (PyStr.isspace c) eqn:E; [exact IH|].
  right. now exists c, s.
Qed.

Lemma rstrip_head (c : ascii) (r : string) :
  PyStr.isspace c = false ->
  PyStr.rstrip (String c r) = String c (PyStr.rstrip r).
Proof. intros E. cbn [PyStr.rstrip]. now rewrite E. Qed.

Lemma rstrip_idem (s : string) : PyStr.rstrip (PyStr.rstrip s) = PyStr.rstrip s.
Proof.
  induction s as [|c s IH]; [reflexivity|].
  cbn [PyStr.rstrip].
  destruct (PyStr.isspace c && String.eqb (PyStr.rstrip s) "") eqn:E;
    [reflexivity|].
  cbn [PyStr.rstrip]. now rewrite IH, E.
Qed.

(** A trimmed string is empty or starts with a character that is not
    white space. *)
Lemma strip_head (s : string) :
  PyStr.strip s = EmptyString
  \/ exists c r, PyStr.strip s = String c r /\ PyStr.isspace c = false.
Proof.
  unfold PyStr.strip. destruct (lstrip_head s) as [-> | (c & r & -> & E)].
  - now left.
  - right. exists c, (PyStr.rstrip r). split; [now apply rstrip_head | exact E].
Qed.

Lemma lstrip_nonspace (c : ascii) (r : string) :
  PyStr.isspace c = false -> PyStr.lstrip (String c r) = String c r.
Proof. intros E. cbn [PyStr.lstrip]. now rewrite E. Qed.

Lemma strip_idem (s : string) : PyStr.strip (PyStr.strip s) = PyStr.strip s.
Proof.
  destruct (strip_head s) as [E | (c & r & E & Hc)].
  - now rewrite E.
  - unfold PyStr.strip at 1. rewrite E, (lstrip_nonspace c r Hc), <- E.
    unfold PyStr.strip. apply rstrip_idem.
Qed.

Lemma strip_nonspace_head (c : ascii) (r : string) :
  PyStr.isspace c = false -> PyStr.strip (String c r) <> EmptyString.
Proof.
  intros E. unfold PyStr.strip.
  rewrite (lstrip_nonspace c r E), (rstrip_head c r E). discriminate.
Qed.

Lemma prefix_head (a c : ascii) (s1 s2 : string) :
  prefix (String a s1) (String c s2) = true -> a = c.
Proof.
  cbn [prefix]. destruct (ascii_dec a c); [trivial | discriminate].
Qed.

(** The text before the first delimiter of a trimmed name is not blank. *)
Lemma trimmed_prefix_not_blank (s : string) (i : nat) :
  index 0 " - " (PyStr.strip s) = Some i ->
  PyStr.strip (substring 0 i (PyStr.strip s)) <> EmptyString.
Proof.
  destruct (strip_head s) as [E | (c & r & E & Hc)]; rewrite E.
  - discriminate.
  - rewrite index_cons.
    destruct (prefix " - " (String c r)) eqn:Ep.
    + apply prefix_head in Ep. subst c. discriminate Hc.
    + destruct (index 0 " - " r) as [n|]; [|discriminate].
      intros [= <-]. cbn [substring]. now apply strip_nonspace_head.
Qed.

(** X1: the brand is never empty and never has white space at its ends:
    it is "Unknown" or a non-empty trimmed text. *)
Theorem X1_brand_nonempty_trimmed (product_name : cell) :
  extract_brand_from_product product_name <> EmptyString
  /\ PyStr.strip (extract_brand_from_product product_name)
     = extract_brand_from_product product_name.
Proof.
  destruct product_name as [s|]; [|split; [discriminate | reflexivity]].
  unfold extract_brand_from_product.
  destruct (PyStr.contains " - " (PyStr.strip s));
    [|split; [discriminate | reflexivity]].
  destruct (String.eqb_spec
              (PyStr.strip (hd EmptyString (PyStr.split " - " (PyStr.strip s))))
              EmptyString) as [E|E].
  - split; [discriminate | reflexivity].
  - split; [exact E | apply strip_idem].
Qed.

(** X2: when the trimmed product name contains the delimiter, the brand is
    the trimmed text before its first occurrence, which is never blank:
    the fallback to "Unknown" for an empty prefix is never taken. *)
Theorem X2_brand_prefix_never_blank (s : string) (i : nat) :
  index 0 " - " (PyStr.strip s) = Some i ->
  extract_brand_from_product (Some s)
  = PyStr.strip (substring 0 i (PyStr.strip s))
  /\ PyStr.strip (substring 0 i (PyStr.strip s)) <> EmptyString
  /\ 0 < i.
Proof.
  intros Hi. pose proof (trimmed_prefix_not_blank s i Hi) as Hnb.
  split; [|split; [exact Hnb|]].
  - rewrite extract_brand_via_index. unfold brand_by_spec.
    rewrite Hi.
    destruct (String.eqb_spec (PyStr.strip (substring 0 i (PyStr.strip s)))
                              EmptyString); [contradiction | reflexivity].
  - destruct i; [|lia]. exfalso. apply Hnb.
    destruct (PyStr.strip s); reflexivity.
Qed.

Lemma X2_brand_prefix_never_blank_witness :
  index 0 " - " (PyStr.strip "  Pretty Dope - 24k Gold Vape 1g ") = Some 11
  /\ extract_brand_from_product (Some "  Pretty Dope - 24k Gold Vape 1g ")
     = "Pretty Dope".
Proof.
  split; [reflexivity|].
  apply (X2_brand_prefix_never_blank "  Pretty Dope - 24k Gold Vape 1g " 11).
  reflexivity.
Defined.

(* ================================================================== *)
(** * Further properties of the aggregation *)

Lemma rmapM_Raise {A B} (f : A -> result B) (l : list A) (e : exn) :
  rmapM f l = Raise e -> exists x, In x l /\ f x = Raise e.
Proof.
  induction l as [|x l IH]; cbn [rmapM]; [discriminate|].
  destruct (f x) as [y|e'] eqn:Ex; cbn [rbind].
  - destruct (rmapM f l) as [ys|e'']; cbn [rbind]; [discriminate|].
    intros [= ->]. destruct (IH eq_refl) as (x' & Hin & E).
    exists x'. split; [now right | exact E].
  - intros [= ->]. exists x. split; [now left | exact Ex].
Qed.

Lemma rmapM_total {A B} (f : A -> result B) (l : list A) :
  (forall x, In x l -> exists y, f x = Ok y) -> exists ys, rmapM f l = Ok ys.
Proof.
  induction l as [|x l IH]; intros H; cbn [rmapM].
  - now exists [].
  - destruct (H x (or_introl eq_refl)) as (y & ->).
    destruct IH as (ys & ->); [intros x' Hx'; apply H; now right|].
    cbn [rbind]. now exists (y :: ys).
Qed.

Lemma to_line_result (g : key * pyfloat) :
  match snd g with
  | Fin _ => exists l, to_line g = Ok l
  | _ => to_line g = Raise IntCastingNaNError
  end.
Proof.
  destruct g as [[[[c b] p] n] f]. unfold to_line, rmap. cbn [fst snd].
  destruct f; cbn [round_astype_int rbind]; try reflexivity. eexists.
  reflexivity.
Qed.

Lemma group_of_rows (df : list package) (k : key) (f : pyfloat) :
  In f (group_of k (map normalize df)) ->
  exists r, In r df /\ normalize r = (k, f).
Proof.
  intros H. apply group_of_In in H. apply in_map_iff in H.
  destruct H as (r & E & Hr). now exists r.
Qed.

(** X3: aggregation cannot fail on whole-number data: when the coerced
    quantities of the rows are whole numbers whose magnitudes total at
    most 2^53, the audit table is returned. *)
Theorem X3_process_succeeds_on_whole_numbers (df : list package) :
  exact_group (map snd (map normalize df)) ->
  exists lines, process_packages_to_audit df = Ok lines.
Proof.
  intros H. unfold process_packages_to_audit.
  destruct (rmapM_total to_line (groupby_sum (map normalize df)))
    as (lines0 & ->).
  - intros g Hg. unfold groupby_sum in Hg. apply in_map_iff in Hg.
    destruct Hg as (k & <- & _).
    pose proof (to_line_result (k, sum_skipna (group_of k (map normalize df))))
      as Hl.
    cbn [snd] in Hl. rewrite sum_skipna_exact in Hl |- *; [exact Hl| |];
      unfold group_of; now apply exact_group_filter.
  - cbn [rmap rbind]. eexists. reflexivity.
Qed.

Lemma X3_process_succeeds_on_whole_numbers_witness :
  exists lines,
    process_packages_to_audit [sample_row "5"; sample_row "3"] = Ok lines.
Proof.
  apply (X3_process_succeeds_on_whole_numbers [sample_row "5"; sample_row "3"]).
  split.
  - repeat constructor; vm_compute; reflexivity.
  - vm_compute. discriminate.
Defined.

Lemma process_Raise (df : list package) (e : exn) :
  process_packages_to_audit df = Raise e ->
  e = IntCastingNaNError
  /\ exists r, In r df
               /\ not_finite (sum_skipna (group_of (fst (normalize r))
                                                   (map normalize df))).
Proof.
  unfold process_packages_to_audit, rmap.
  destruct (rmapM to_line _) as [lines0|e'] eqn:Em; cbn [rbind];
    [discriminate|].
  intros [= ->]. apply rmapM_Raise in Em. destruct Em as (g & Hg & Eg).
  unfold groupby_sum in Hg. apply in_map_iff in Hg.
  destruct Hg as (k & <- & Hk).
  pose proof (to_line_result (k, sum_skipna (group_of k (map normalize df))))
    as Hl.
  cbn [snd] in Hl.
  apply group_keys_In in Hk. apply in_map_iff in Hk.
  destruct Hk as (kf & <- & Hk). apply in_map_iff in Hk.
  destruct Hk as (r & <- & Hr).
  destruct (sum_skipna _) eqn:Es.
  - destruct Hl as (l & Hl). congruence.
  - split; [congruence|]. exists r. split; [exact Hr|]. now rewrite Es.
  - split; [congruence|]. exists r. split; [exact Hr|]. now rewrite Es.
  - split; [congruence|]. exists r. split; [exact Hr|]. now rewrite Es.
Qed.

(** X4: the only failure of the aggregation is the integer cast of a
    group sum that is not finite.  Such a sum needs no infinite quantity:
    two rows of the finite quantity 1e308 in one group overflow. *)
Theorem X4_process_failure :
  (forall (df : list package) (e : exn),
      process_packages_to_audit df = Raise e ->
      e = IntCastingNaNError
      /\ exists r, In r df
                   /\ not_finite
                        (sum_skipna (group_of (fst (normalize r))
                                              (map normalize df))))
  /\ process_packages_to_audit [sample_row "1e308"; sample_row "1e308"]
     = Raise IntCastingNaNError
  /\ ~ not_finite (snd (normalize (sample_row "1e308"))).
Proof.
  split; [exact process_Raise|].
  split; [vm_compute; reflexivity|].
  vm_compute. intros H. exact H.
Qed.

(** X5: in the audit table the Brand of every line is the brand extracted
    from the Distru Product of that line. *)
Theorem X5_brand_of_product (df : list package) (lines : list audit_line)
        (l : audit_line) :
  process_packages_to_audit df = Ok lines -> In l lines ->
  Brand l = extract_brand_from_product (Distru_Product l).
Proof.
  intros H Hl. destruct (process_line _ _ _ H Hl) as (Hk & _).
  apply in_map_iff in Hk. destruct Hk as (kf & E & Hk).
  apply in_map_iff in Hk. destruct Hk as (r & <- & _).
  unfold normalize, key_of in E. cbn [fst] in E.
  injection E as _ E2 E3 _. now rewrite <- E2, <- E3.
Qed.

Lemma X5_brand_of_product_witness :
  process_packages_to_audit sample_table = Ok sample_audit
  /\ Brand sample_line_no_category
     = extract_brand_from_product (Distru_Product sample_line_no_category).
Proof.
  split; [vm_compute; reflexivity|].
  apply (X5_brand_of_product sample_table sample_audit).
  - vm_compute. reflexivity.
  - right. left. reflexivity.
Defined.

(** X6: when the binary64 sum of a group lies between -2^63 and 2^63,
    the System_Qty of its line differs from that sum by at most one
    half. *)
Theorem X6_rounding_error_bound (df : list package) (lines : list audit_line)
        (l : audit_line) (q : Q) :
  process_packages_to_audit df = Ok lines -> In l lines ->
  sum_skipna (group_of (key_of l) (map normalize df)) = Fin q ->
  (inject_Z int64_min <= q)%Q -> (q < inject_Z (2 ^ 63))%Q ->
  (Qabs (inject_Z (System_Qty l) - q) <= 1 # 2)%Q.
Proof.
  intros H Hl Hq Hlo Hhi.
  destruct (process_line _ _ _ H Hl) as (_ & q' & Hq' & ->).
  rewrite Hq in Hq'. injection Hq' as <-.
  rewrite cast_int64_id; [apply round_half_even_near|].
  apply round_in_int64; [|exact Hlo|exact Hhi].
  apply (sum_skipna_small _ _ Hq).
Qed.

Lemma X6_rounding_error_bound_witness :
  process_packages_to_audit [sample_row "0.4"] = Ok [sample_line 0]
  /\ (Qabs (inject_Z (System_Qty (sample_line 0))
            - (3602879701896397 # 9007199254740992)) <= 1 # 2)%Q.
Proof.
  split; [vm_compute; reflexivity|].
  apply (X6_rounding_error_bound [sample_row "0.4"] [sample_line 0]
           (sample_line 0) (3602879701896397 # 9007199254740992)).
  - vm_compute. reflexivity.
  - left. reflexivity.
  - vm_compute. reflexivity.
  - vm_compute. discriminate.
  - vm_compute. reflexivity.
Defined.

Lemma sum_indicator (x : key) (v : Z) (keys : list key) :
  NoDup keys -> In x keys ->
  fold_right Z.add 0%Z (map (fun k => if key_eqb x k then v else 0%Z) keys)
  = v.
Proof.
  induction keys as [|k keys IH]; intros Hnd Hin; [destruct Hin|].
  inversion Hnd as [|? ? Hk Hnd']; subst. cbn [map fold_right].
  destruct (key_eqb x k) eqn:E.
  - apply key_eqb_true in E. subst k.
    rewrite (map_ext_in _ (fun _ => 0%Z)).
    + clear. induction keys as [|k keys IH]; cbn [map fold_right]; lia.
    + intros k' Hk'. destruct (key_eqb x k') eqn:E'; [|reflexivity].
      apply key_eqb_true in E'. subst k'. contradiction.
  - destruct Hin as [->|Hin].
    + rewrite (proj2 (key_eqb_true x x) eq_refl) in E. discriminate.
    + rewrite (IH Hnd' Hin). lia.
Qed.

Lemma fold_right_add_map2 {A} (f g : A -> Z) (l : list A) :
  fold_right Z.add 0%Z (map (fun x => (f x + g x)%Z) l)
  = (fold_right Z.add 0%Z (map f l) + fold_right Z.add 0%Z (map g l))%Z.
Proof. induction l as [|x l IH]; cbn [map fold_right]; lia. Qed.

(** The groups of the keys partition the rows: their exact sums add up
    to the exact sum of all the rows. *)
Lemma group_sums_total (keys : list key) (rows : list (key * pyfloat)) :
  NoDup keys -> (forall r, In r rows -> In (fst r) keys) ->
  fold_right Z.add 0%Z (map (fun k => exact_sum (group_of k rows)) keys)
  = exact_sum (map snd rows).
Proof.
  intros Hnd. induction rows as [|r rows IH]; intros Hin.
  - unfold group_of, exact_sum. cbn [filter map fold_right].
    clear. induction keys as [|k keys IH]; cbn [map fold_right]; lia.
  - rewrite (map_ext _ (fun k => ((if key_eqb (fst r) k
                                   then whole_part (snd r) else 0)
                                  + exact_sum (group_of k rows))%Z)).
    + rewrite fold_right_add_map2, sum_indicator, IH.
      * unfold exact_sum. cbn [map fold_right]. reflexivity.
      * intros r' Hr'. apply Hin. now right.
      * exact Hnd.
      * apply Hin. now left.
    + intros k. unfold group_of, exact_sum. cbn [filter].
      destruct (key_eqb (fst r) k); cbn [map fold_right]; lia.
Qed.

(** X7: on whole-number data nothing is lost or counted twice: when the
    coerced quantities of the rows are whole numbers whose magnitudes
    total at most 2^53, the System_Qty column of the audit table adds up
    to the sum of the coerced quantities of all the rows. *)
Theorem X7_total_conserved (df : list package) (lines : list audit_line) :
  process_packages_to_audit df = Ok lines ->
  exact_group (map snd (map normalize df)) ->
  fold_right Z.add 0%Z (map System_Qty lines)
  = exact_sum (map snd (map normalize df)).
Proof.
  intros H He.
  rewrite (map_ext_in System_Qty
             (fun l => exact_sum (group_of (key_of l) (map normalize df)))).
  - rewrite <- (map_map key_of
                  (fun k => exact_sum (group_of k (map normalize df)))).
    rewrite (process_keys _ _ H). apply group_sums_total.
    + rewrite <- (map_id (group_keys _)).
      apply (sorted_lt_NoDup key_compare (fun x => x)), group_keys_sorted.
    + intros r Hr. apply group_keys_In. now apply in_map.
  - intros l Hl. apply (process_line_exact _ _ _ H Hl).
    unfold group_of. now apply exact_group_filter.
Qed.

Lemma X7_total_conserved_witness :
  process_packages_to_audit [sample_row "5"; sample_row "3"]
  = Ok [sample_line 8]
  /\ fold_right Z.add 0%Z (map System_Qty [sample_line 8])
     = exact_sum (map snd (map normalize [sample_row "5"; sample_row "3"])).
Proof.
  split; [vm_compute; reflexivity|].
  apply (X7_total_conserved [sample_row "5"; sample_row "3"] [sample_line 8]).
  - vm_compute. reflexivity.
  - split.
    + repeat constructor; vm_compute; reflexivity.
    + vm_compute. discriminate.
Defined.

(** X8: the audit table has one line per distinct key of the input, so
    never more lines than the input has rows, and at least one line when
    the input has a row. *)
Theorem X8_line_count (df : list package) (lines : list audit_line) :
  process_packages_to_audit df = Ok lines ->
  List.length lines
  = List.length (unique key_eqb (map fst (map normalize df)))
  /\ List.length lines <= List.length df
  /\ (df <> [] -> lines <> []).
Proof.
  intros H. pose proof (process_keys_perm _ _ H) as Hp.
  apply Permutation_length in Hp. rewrite length_map in Hp.
  assert (Hk : List.length (group_keys (map normalize df))
               = List.length (unique key_eqb (map fst (map normalize df)))).
  { apply Permutation_length. apply (sort_by_perm key_compare (fun x => x)). }
  split; [congruence|]. split.
  - rewrite Hp, Hk, <- (length_map normalize df),
      <- (length_map fst (map normalize df)).
    apply NoDup_incl_length; [apply (unique_NoDup key_compare)|].
    intros k Hin. exact (proj1 (unique_In key_compare _ k) Hin).
  - intros Hne ->. destruct df as [|r df]; [congruence|].
    cbn [List.length] in Hp. symmetry in Hp. rewrite Hk in Hp.
    apply length_zero_iff_nil in Hp.
    assert (Hin : In (fst (normalize r))
                     (unique key_eqb (map fst (map normalize (r :: df))))).
    { apply (proj2 (unique_In key_compare _ _)). now left. }
    rewrite Hp in Hin. destruct Hin.
Qed.

Lemma X8_line_count_witness :
  process_packages_to_audit sample_table = Ok sample_audit
  /\ List.length sample_audit <= List.length sample_table.
Proof.
  split; [vm_compute; reflexivity|].
  apply (X8_line_count sample_table sample_audit). vm_compute. reflexivity.
Defined.

(* ================================================================== *)
(** * Further properties of the filters *)

Lemma StronglySorted_filter {A} (R : A -> A -> Prop) (p : A -> bool)
      (l : list A) :
  StronglySorted R l -> StronglySorted R (filter p l).
Proof.
  induction 1 as [|x l Hs IH Hall]; cbn [filter]; [constructor|].
  destruct (p x); [|exact IH]. constructor; [exact IH|].
  rewrite Forall_forall in *. intros y Hy. apply Hall.
  now apply filter_In in Hy.
Qed.

Lemma apply_filters_In (audit_df : list audit_line) (sc sb : list string)
      (l : audit_line) :
  In l (apply_filters audit_df sc sb) <->
  In l audit_df
  /\ keeps_by_spec (effective_selection sc) (Category l) = true
  /\ keeps_by_spec (effective_selection sb) (Some (Brand l)) = true.
Proof.
  rewrite apply_filters_effective. unfold filter_by_spec.
  rewrite filter_In, andb_true_iff. tauto.
Qed.

(** X9: filtering keeps the invariants of the audit table: the filtered
    table is still in strictly ascending order of its keys, its keys are
    still pairwise distinct, and each of its lines is a line of the audit
    table. *)
Theorem X9_filter_keeps_invariants (df : list package)
        (lines : list audit_line) (sc sb : list string) :
  process_packages_to_audit df = Ok lines ->
  StronglySorted key_lt (apply_filters lines sc sb)
  /\ NoDup (map key_of (apply_filters lines sc sb))
  /\ (forall l, In l (apply_filters lines sc sb) -> In l lines).
Proof.
  intros H.
  assert (Hs : StronglySorted key_lt (apply_filters lines sc sb)).
  { rewrite apply_filters_effective. unfold filter_by_spec.
    apply StronglySorted_filter. apply (process_sorted _ _ H). }
  split; [exact Hs|]. split.
  - apply (sorted_lt_NoDup key_compare key_of). exact Hs.
  - intros l Hl. now apply apply_filters_In in Hl.
Qed.

Lemma X9_filter_keeps_invariants_witness :
  process_packages_to_audit sample_table = Ok sample_audit
  /\ StronglySorted key_lt (apply_filters sample_audit ["Vape"] ["Acme"]).
Proof.
  split; [vm_compute; reflexivity|].
  apply (X9_filter_keeps_invariants sample_table sample_audit).
  vm_compute. reflexivity.
Defined.

Lemma filter_by_spec_twice (audit_df : list audit_line)
      (c1 b1 c2 b2 : selection) :
  filter_by_spec (filter_by_spec audit_df c1 b1) c2 b2
  = filter (fun r => (keeps_by_spec c1 (Category r)
                      && keeps_by_spec c2 (Category r))
                     && (keeps_by_spec b1 (Some (Brand r))
                         && keeps_by_spec b2 (Some (Brand r)))) audit_df.
Proof.
  unfold filter_by_spec. rewrite filter_filter. apply filter_ext.
  intros r. destruct (keeps_by_spec c1 _), (keeps_by_spec b1 _),
    (keeps_by_spec c2 _), (keeps_by_spec b2 _); reflexivity.
Qed.

(** X10: applying the same filter twice changes nothing more, and the two
    dimensions commute: filtering by category and then by brand, or by
    brand and then by category, gives the table filtered by both. *)
Theorem X10_filter_idempotent_commutes :
  (forall audit_df sc sb,
      apply_filters (apply_filters audit_df sc sb) sc sb
      = apply_filters audit_df sc sb)
  /\ (forall audit_df sc sb,
         apply_filters (apply_filters audit_df sc []) [] sb
         = apply_filters audit_df sc sb)
  /\ (forall audit_df sc sb,
         apply_filters (apply_filters audit_df [] sb) sc []
         = apply_filters audit_df sc sb).
Proof.
  split; [|split]; intros audit_df sc sb;
    rewrite !apply_filters_effective, filter_by_spec_twice;
    unfold filter_by_spec; apply filter_ext; intros r;
    change (effective_selection []) with All; cbn [keeps_by_spec];
    destruct (keeps_by_spec (effective_selection sc) (Category r)),
      (keeps_by_spec (effective_selection sb) (Some (Brand r))); reflexivity.
Qed.

(* ================================================================== *)
(** * Further properties of the document *)

Lemma eq_cell_true (a b : cell) :
  eq_cell a b = true <-> exists x, a = Some x /\ b = Some x.
Proof.
  destruct a as [x|], b as [y|]; cbn [eq_cell]; split;
    try discriminate; try (intros (z & E1 & E2); discriminate).
  - intros E. apply String.eqb_eq in E. subst. now exists y.
  - intros (z & [= ->] & [= ->]). apply String.eqb_refl.
Qed.

Lemma cat_rows_cons (r : audit_line) (df : list audit_line) (c : cell) :
  cat_rows (r :: df) c
  = if eq_cell (Category r) c then r :: cat_rows df c else cat_rows df c.
Proof. reflexivity. Qed.

Lemma cat_rows_None (df : list audit_line) : cat_rows df None = [].
Proof.
  induction df as [|r df IH]; [reflexivity|].
  rewrite cat_rows_cons. destruct (Category r); cbn [eq_cell]; exact IH.
Qed.

(** Adding a line to the group of the one category it belongs to. *)
Lemma concat_insert_once {A} (r : A) (g : cell -> list A) (x : string)
      (cats : list cell) :
  NoDup cats -> In (Some x) cats ->
  Permutation
    (List.concat
       (map (fun c => if eq_cell (Some x) c then r :: g c else g c) cats))
    (r :: List.concat (map g cats)).
Proof.
  induction cats as [|c cats IH]; intros Hnd Hin; [destruct Hin|].
  inversion Hnd as [|? ? Hc Hnd']; subst. cbn [map List.concat].
  destruct (eq_cell (Some x) c) eqn:E.
  - apply eq_cell_true in E. destruct E as (y & [= <-] & ->).
    cbn [app]. constructor. apply Permutation_app_head.
    rewrite (map_ext_in _ g); [reflexivity|].
    intros c' Hc'. destruct (eq_cell (Some x) c') eqn:E'; [|reflexivity].
    apply eq_cell_true in E'. destruct E' as (y & [= <-] & ->). contradiction.
  - destruct Hin as [->|Hin].
    + rewrite (proj2 (eq_cell_true (Some x) (Some x))) in E; [discriminate|].
      now exists x.
    + rewrite (IH Hnd' Hin). symmetry. apply Permutation_middle.
Qed.

(** The groups of the categories partition the lines that have one. *)
Lemma cat_rows_partition (cats : list cell) (df : list audit_line) :
  NoDup cats ->
  (forall r, In r df -> Category r <> None -> In (Category r) cats) ->
  Permutation (List.concat (map (cat_rows df) cats)) (filter has_category df).
Proof.
  intros Hnd. induction df as [|r df IH]; intros Hin.
  - cbn [filter]. induction cats as [|c cats IHc]; [reflexivity|].
    cbn [map List.concat]. inversion Hnd; subst. cbn [cat_rows filter app].
    now apply IHc.
  - assert (IH' := IH (fun r' Hr' => Hin r' (or_intror Hr'))).
    cbn [filter]. unfold has_category at 1.
    destruct (Category r) as [x|] eqn:Ec; cbn [isna_cell negb].
    + rewrite (map_ext _ (fun c => if eq_cell (Some x) c
                                   then r :: cat_rows df c
                                   else cat_rows df c)).
      * rewrite concat_insert_once; [now constructor | exact Hnd|].
        rewrite <- Ec. apply Hin; [now left | congruence].
      * intros c. now rewrite cat_rows_cons, Ec.
    + rewrite (map_ext _ (cat_rows df)); [exact IH'|].
      intros c. now rewrite cat_rows_cons, Ec.
Qed.

Lemma printed_rows_app (l1 l2 : list flowable) :
  printed_rows (l1 ++ l2) = printed_rows l1 ++ printed_rows l2.
Proof. unfold printed_rows. now rewrite map_app, concat_app. Qed.

Lemma printed_rows_join (secs : list (list flowable)) :
  printed_rows (join_sections [PageBreak] secs)
  = List.concat (map printed_rows secs).
Proof.
  induction secs as [|s rest IH]; [reflexivity|].
  destruct rest as [|s' rest'].
  - cbn [join_sections map List.concat]. now rewrite app_nil_r.
  - change (join_sections [PageBreak] (s :: s' :: rest'))
      with (s ++ [PageBreak] ++ join_sections [PageBreak] (s' :: rest')).
    rewrite !printed_rows_app, IH. reflexivity.
Qed.

Lemma printed_rows_section (df : list audit_line) (c : cell) :
  printed_rows (category_section df c) = map table_row (cat_rows df c).
Proof.
  unfold printed_rows, category_section, section_heading.
  cbn [map table_data_rows List.concat app]. apply app_nil_r.
Qed.

Lemma printed_rows_sections (df : list audit_line) (cats : list cell) :
  printed_rows (join_sections [PageBreak] (map (category_section df) cats))
  = map table_row (List.concat (map (cat_rows df) cats)).
Proof.
  rewrite printed_rows_join, map_map, concat_map, map_map.
  f_equal. apply map_ext. intros c. apply printed_rows_section.
Qed.

Lemma sorted_categories_cover (df : list audit_line) (cats : list cell) :
  py_sorted (unique cell_eqb (map Category df)) = Ok cats ->
  NoDup cats
  /\ (forall c, In c cats <-> exists r, In r df /\ Category r = c).
Proof.
  intros H. apply py_sorted_Ok in H; [|apply (unique_NoDup cell_compare)].
  destruct H as [Hp _]. split.
  - eapply Permutation_NoDup; [symmetry; exact Hp|].
    apply (unique_NoDup cell_compare).
  - intros c. split.
    + intros Hc. apply (Permutation_in _ Hp) in Hc.
      apply (proj1 (unique_In cell_compare _ c)) in Hc.
      apply in_map_iff in Hc. destruct Hc as (r & E & Hr). now exists r.
    + intros (r & Hr & <-). apply (Permutation_in _ (Permutation_sym Hp)).
      apply (proj2 (unique_In cell_compare _ _)). now apply in_map.
Qed.

(** X12: the category tables of a document list every line of the table
    that has a category exactly once, and no other row: together their
    data rows are a rearrangement of the rows of these lines. *)
Theorem X12_every_line_printed_once (df : list audit_line)
        (sc sb : list string) (page_size : string) (w : world)
        (doc : document) :
  fst (generate_audit_pdf df sc sb page_size w) = Ok doc ->
  Permutation (printed_rows (doc_elements doc))
              (map table_row (filter has_category df))
  /\ List.length (printed_rows (doc_elements doc))
     = List.length (filter has_category df).
Proof.
  intros H. apply generate_Ok in H. destruct H as (cats & Hs & _ & He).
  apply sorted_categories_cover in Hs. destruct Hs as [Hnd Hcov].
  assert (Hp : Permutation (printed_rows (doc_elements doc))
                           (map table_row (filter has_category df))).
  { rewrite He, !printed_rows_app, printed_rows_sections.
    change (printed_rows title_block) with (@nil (list tcell)).
    change (printed_rows (metadata_of _ _ _ _ _)) with (@nil (list tcell)).
    change (printed_rows signature_block) with (@nil (list tcell)).
    cbn [app]. rewrite app_nil_r. apply Permutation_map.
    apply cat_rows_partition; [exact Hnd|].
    intros r Hr _. apply Hcov. now exists r. }
  split; [exact Hp|].
  rewrite (Permutation_length Hp). apply length_map.
Qed.

Lemma X12_every_line_printed_once_witness :
  render_sample (world_at sample_morning) = Ok sample_document
  /\ List.length (printed_rows (doc_elements sample_document))
     = List.length (filter has_category sample_two_categories).
Proof.
  split; [vm_compute; reflexivity|].
  apply (X12_every_line_printed_once sample_two_categories ["All"] ["All"]
           "letter" (world_at sample_morning) sample_document).
  vm_compute. reflexivity.
Defined.

Lemma forallb_false {A} (p : A -> bool) (l : list A) :
  forallb p l = false <-> exists x, In x l /\ p x = false.
Proof.
  induction l as [|x l IH]; cbn [forallb].
  - split; [discriminate | intros (x & [] & _)].
  - rewrite andb_false_iff, IH. split.
    + intros [E | (y & Hy & E)]; [exists x | exists y]; auto with datatypes.
    + intros (y & [<-|Hy] & E); [now left | right; now exists y].
Qed.

(** [sorted] raises exactly on a list that holds NaN and a string. *)
Lemma py_sorted_Raise (l : list cell) (e : exn) :
  py_sorted l = Raise e <->
  e = TypeError /\ In None l /\ exists c, In c l /\ c <> None.
Proof.
  unfold py_sorted.
  destruct (forallb (fun c => negb (isna_cell c)) l) eqn:E1.
  - split; [discriminate|]. intros (_ & Hn & _).
    rewrite forallb_forall in E1. specialize (E1 None Hn). discriminate E1.
  - destruct (forallb isna_cell l) eqn:E2.
    + split; [discriminate|]. intros (_ & _ & c & Hc & Hne).
      rewrite forallb_forall in E2. specialize (E2 c Hc).
      destruct c; [discriminate E2 | congruence].
    + apply forallb_false in E1, E2.
      destruct E1 as (c1 & H1 & E1), E2 as (c2 & H2 & E2).
      split; [|intros (-> & _); reflexivity]. intros [= <-].
      split; [reflexivity|]. split.
      * destruct c1; [discriminate E1 | exact H1].
      * exists c2. split; [exact H2|]. destruct c2; [discriminate|].
        discriminate E2.
Qed.

Lemma categories_mixed (df : list audit_line) :
  (In None (unique cell_eqb (map Category df))
   /\ exists c, In c (unique cell_eqb (map Category df)) /\ c <> None)
  <-> mixed_categories df.
Proof.
  unfold mixed_categories. split.
  - intros (Hn & c & Hc & Hne).
    apply (proj1 (unique_In cell_compare _ _)) in Hn, Hc.
    apply in_map_iff in Hn, Hc.
    destruct Hn as (r1 & E1 & H1), Hc as (r2 & E2 & H2). split.
    + now exists r1.
    + exists r2. split; [exact H2 | congruence].
  - intros ((r1 & H1 & E1) & (r2 & H2 & E2)). split.
    + apply (proj2 (unique_In cell_compare _ _)). rewrite <- E1.
      now apply in_map.
    + exists (Category r2). split; [|exact E2].
      apply (proj2 (unique_In cell_compare _ _)). now apply in_map.
Qed.


Lemma all_None_list (cats : list cell) :
  NoDup cats -> (forall c, In c cats -> c = None) -> In None cats ->
  cats = [None].
Proof.
  intros Hnd Hall Hin. destruct cats as [|a [|b cats]].
  - destruct Hin.
  - now rewrite (Hall a (or_introl eq_refl)).
  - exfalso. inversion Hnd as [|? ? Hn _]; subst. apply Hn. left.
    rewrite (Hall a (or_introl eq_refl)).
    now rewrite (Hall b (or_intror (or_introl eq_refl))).
Qed.

(** X14: when a table none of whose lines has a category is rendered, the
    document has a single section headed "nan" that announces 0 items and
    lists no row: none of the lines reaches the document. *)
Theorem X14_all_categories_missing (df : list audit_line)
        (sc sb : list string) (page_size : string) (w : world)
        (doc : document) :
  df <> [] ->
  (forall r, In r df -> Category r = None) ->
  fst (generate_audit_pdf df sc sb page_size w) = Ok doc ->
  filter is_heading (doc_elements doc)
  = [Paragraph "<b>Category: nan</b> (0 items)" Heading2]
  /\ printed_rows (doc_elements doc) = [].
Proof.
  intros Hne Hall Hd.
  apply generate_Ok in Hd. destruct Hd as (cats & Hs & _ & He).
  apply sorted_categories_cover in Hs. destruct Hs as [Hnd Hcov].
  assert (Ec : cats = [None]).
  { apply all_None_list; [exact Hnd| |].
    - intros c Hc. apply Hcov in Hc. destruct Hc as (r & Hr & <-).
      now apply Hall.
    - apply Hcov. destruct df as [|r df]; [congruence|].
      exists r. split; [now left | apply Hall; now left]. }
  subst cats. rewrite He. split.
  - rewrite !filter_app, sections_headings.
    cbn [filter is_heading title_block metadata_of metadata_block
         signature_block signature_table app map].
    unfold section_heading. rewrite cat_rows_None. reflexivity.
  - rewrite !printed_rows_app, printed_rows_sections.
    cbn [map List.concat]. rewrite cat_rows_None. reflexivity.
Qed.

Lemma X14_all_categories_missing_witness :
  [sample_line_no_category] <> []
  /\ printed_rows (doc_elements sample_document_no_category) = [].
Proof.
  split; [discriminate|].
  apply (X14_all_categories_missing [sample_line_no_category] ["All"] ["All"]
           "letter" (world_at sample_morning) sample_document_no_category).
  - discriminate.
  - intros r [<-|[]]. reflexivity.
  - vm_compute. reflexivity.
Defined.

(** X15: when the load step of [main] could sort the categories of the
    audit table, the categories of every filtered view of that table can
    be sorted as well, and they are categories of the table: the
    comparison error cannot occur later. *)
Theorem X15_filtered_categories_sort (audit_df : list audit_line)
        (cats : list cell) (sc sb : list string) :
  session_categories audit_df = Ok cats ->
  exists cats',
    session_categories (apply_filters audit_df sc sb) = Ok cats'
    /\ incl cats' cats.
Proof.
  intros H.
  destruct (session_categories (apply_filters audit_df sc sb))
    as [cats'|e] eqn:E.
  - exists cats'. split; [reflexivity|]. intros c Hc.
    unfold session_categories in E, H.
    apply sorted_categories_cover in E, H.
    apply (proj2 H). apply (proj2 E) in Hc.
    destruct Hc as (r & Hr & <-). exists r. split; [|reflexivity].
    apply apply_filters_In in Hr. tauto.
  - exfalso. unfold session_categories in E.
    apply py_sorted_Raise in E. destruct E as (_ & E).
    apply categories_mixed in E.
    destruct E as ((r1 & H1 & E1) & (r2 & H2 & E2)).
    apply apply_filters_In in H1, H2.
    assert (Hm : mixed_categories audit_df).
    { split; [exists r1 | exists r2]; tauto. }
    apply categories_mixed in Hm.
    assert (Hr : session_categories audit_df = Raise TypeError).
    { apply py_sorted_Raise. tauto. }
    congruence.
Qed.

Lemma X15_filtered_categories_sort_witness :
  session_categories sample_two_categories
  = Ok [Some "Flower"; Some "Vape"]
  /\ exists cats',
      session_categories (apply_filters sample_two_categories [] ["Acme"])
      = Ok cats'
      /\ incl cats' [Some "Flower"; Some "Vape"].
Proof.
  split; [reflexivity|].
  apply (X15_filtered_categories_sort sample_two_categories
           [Some "Flower"; Some "Vape"] [] ["Acme"]).
  reflexivity.
Defined.

Lemma string_length_append (s1 s2 : string) :
  String.length (s1 ++ s2) = String.length s1 + String.length s2.
Proof.
  induction s1 as [|c s1 IH]; [reflexivity|].
  cbn [append String.length]. now rewrite IH.
Qed.

Lemma length_substring_0 (n : nat) :
  forall s, String.length (substring 0 n s) = Nat.min n (String.length s).
Proof.
  induction n as [|n IH]; intros s.
  - destruct s; reflexivity.
  - destruct s as [|c s]; [reflexivity|].
    cbn [substring String.length Nat.min]. now rewrite IH.
Qed.

Lemma product_text_eq (row : audit_line) :
  product_text row
  = if 60 <? String.length (str_cell (Distru_Product row))
    then (substring 0 57 (str_cell (Distru_Product row)) ++ "...")%string
    else str_cell (Distru_Product row).
Proof. reflexivity. Qed.

(** X16: the Product cell of a table row never holds more than 60
    characters: a product name of at most 60 characters is printed as it
    is, a longer one is cut to its first 57 characters followed by three
    dots, which makes exactly 60. *)
Theorem X16_product_text_bound (row : audit_line) :
  String.length (product_text row) <= 60
  /\ (String.length (str_cell (Distru_Product row)) <= 60 ->
      product_text row = str_cell (Distru_Product row))
  /\ (60 < String.length (str_cell (Distru_Product row)) ->
      product_text row
      = (substring 0 57 (str_cell (Distru_Product row)) ++ "...")%string
      /\ String.length (product_text row) = 60).
Proof.
  rewrite product_text_eq.
  destruct (60 <? String.length (str_cell (Distru_Product row))) eqn:E.
  - apply Nat.ltb_lt in E.
    assert (Hl : String.length
                   (substring 0 57 (str_cell (Distru_Product row)) ++ "...")
                 = 60).
    { rewrite string_length_append, length_substring_0.
      cbn [String.length]. lia. }
    split; [lia|]. split; [lia|]. intros _. split; [reflexivity | exact Hl].
  - apply Nat.ltb_ge in E. split; [exact E|]. split; [reflexivity | lia].
Qed.

Lemma X16_product_text_bound_witness :
  String.length (str_cell (Distru_Product (sample_line 8))) <= 60
  /\ product_text (sample_line 8) = "Acme - Widget A".
Proof.
  split; [vm_compute; lia|].
  apply (X16_product_text_bound (sample_line 8)). vm_compute. lia.
Defined.

Lemma mem_In (x : string) (l : list string) : mem x l = true <-> In x l.
Proof.
  unfold mem. rewrite existsb_exists. split.
  - intros (y & Hy & E). apply String.eqb_eq in E. now subst.
  - intros H. exists x. split; [exact H | apply String.eqb_refl].
Qed.

Lemma session_brands_In (audit_df : list audit_line) (b : string) :
  In b (session_brands audit_df) <-> exists l, In l audit_df /\ Brand l = b.
Proof.
  unfold session_brands. split.
  - intros H.
    apply (Permutation_in _ (sort_by_perm String.compare (fun x => x) _)) in H.
    apply (proj1 (unique_In String.compare _ _)) in H.
    apply in_map_iff in H. destruct H as (l & E & Hl). now exists l.
  - intros (l & Hl & <-).
    apply (Permutation_in _ (Permutation_sym
                               (sort_by_perm String.compare (fun x => x) _))).
    apply (proj2 (unique_In String.compare _ _)). now apply in_map.
Qed.

(** X17: the brand options offered by [main] are the brands of the audit
    table, each once, in ascending order; selecting all of them keeps
    exactly the lines that the option 'All' keeps. *)
Theorem X17_brand_options (audit_df : list audit_line) :
  StronglySorted (fun a b => String.compare a b = Lt)
                 (session_brands audit_df)
  /\ (forall b, In b (session_brands audit_df)
                <-> exists l, In l audit_df /\ Brand l = b)
  /\ (forall sc,
         apply_filters audit_df sc (session_brands audit_df)
         = apply_filters audit_df sc ["All"]).
Proof.
  split; [|split; [apply session_brands_In|]].
  - unfold session_brands. apply (sort_by_sorted String.compare (fun x => x)).
    rewrite map_id. apply (unique_NoDup String.compare).
  - intros sc. rewrite !apply_filters_effective. unfold filter_by_spec.
    apply filter_ext_in. intros r Hr. f_equal.
    change (effective_selection ["All"]) with All. cbn [keeps_by_spec].
    unfold effective_selection.
    destruct (restricts (session_brands audit_df)); [|reflexivity].
    cbn [keeps_by_spec isin]. apply mem_In, session_brands_In. now exists r.
Qed.

Lemma fold_add_Z_acc (l : list Z) (a : Z) :
  fold_left Z.add l a = (a + fold_left Z.add l 0)%Z.
Proof.
  revert a. induction l as [|x l IH]; intros a; cbn [fold_left]; [lia|].
  rewrite (IH (a + x)%Z), (IH (0 + x)%Z). lia.
Qed.

Lemma exact_total_cons (r : audit_line) (df : list audit_line) :
  exact_total (r :: df) = (System_Qty r + exact_total df)%Z.
Proof.
  unfold exact_total. cbn [map fold_left]. rewrite fold_add_Z_acc. lia.
Qed.

Lemma exact_total_app (l1 l2 : list audit_line) :
  exact_total (l1 ++ l2) = (exact_total l1 + exact_total l2)%Z.
Proof.
  induction l1 as [|r l1 IH]; [reflexivity|].
  cbn [app]. rewrite !exact_total_cons, IH. lia.
Qed.

Lemma exact_total_perm (l1 l2 : list audit_line) :
  Permutation l1 l2 -> exact_total l1 = exact_total l2.
Proof.
  induction 1; rewrite ?exact_total_cons; lia.
Qed.

Lemma exact_total_concat (ls : list (list audit_line)) :
  fold_left Z.add (map exact_total ls) 0%Z = exact_total (List.concat ls).
Proof.
  induction ls as [|l ls IH]; [reflexivity|].
  cbn [map fold_left List.concat].
  rewrite fold_add_Z_acc, IH, exact_total_app. lia.
Qed.

(** Wrapping commutes with addition. *)
Lemma wrap_int64_add (a b : Z) :
  wrap_int64 (a + wrap_int64 b) = wrap_int64 (a + b).
Proof.
  unfold wrap_int64. f_equal.
  replace (a + ((b - int64_min) mod 2 ^ 64 + int64_min) - int64_min)%Z
    with (a + (b - int64_min) mod 2 ^ 64)%Z by lia.
  rewrite Z.add_mod_idemp_r by lia. f_equal. lia.
Qed.

Lemma wrap_int64_in_range (z : Z) :
  in_int64 z = true -> wrap_int64 z = z.
Proof.
  unfold in_int64, wrap_int64, int64_min, int64_max. intros H.
  apply andb_true_iff in H. rewrite !Z.leb_le in H.
  rewrite Z.mod_small; lia.
Qed.

(** The sum of the int64 column is the wrapped exact sum. *)
Lemma total_qty_wrap (df : list audit_line) :
  total_qty df = wrap_int64 (exact_total df).
Proof.
  unfold total_qty, exact_total.
  assert (H : forall l a,
             fold_left (fun acc z => wrap_int64 (acc + z)) l (wrap_int64 a)
             = wrap_int64 (fold_left Z.add l a)).
  { induction l as [|x l IH]; intros a; cbn [fold_left]; [reflexivity|].
    rewrite (Z.add_comm (wrap_int64 a) x), wrap_int64_add,
      (Z.add_comm x a). apply IH. }
  apply (H (map System_Qty df) 0%Z).
Qed.

Lemma wrap_int64_sum (l : list Z) :
  wrap_int64 (fold_left Z.add (map wrap_int64 l) 0%Z)
  = wrap_int64 (fold_left Z.add l 0%Z).
Proof.
  induction l as [|x l IH]; [reflexivity|].
  cbn [map fold_left].
  rewrite (fold_add_Z_acc _ (0 + wrap_int64 x)),
    (fold_add_Z_acc l (0 + x)), !Z.add_0_l.
  set (F' := fold_left Z.add (map wrap_int64 l) 0%Z) in *.
  set (F := fold_left Z.add l 0%Z) in *.
  rewrite (Z.add_comm (wrap_int64 x) F'), wrap_int64_add, (Z.add_comm F' x).
  rewrite <- (wrap_int64_add x F'), IH. apply wrap_int64_add.
Qed.

(** X18: the preview of [main] is consistent with the table: the item
    counts of its categories add up to the number of lines that have a
    category, and their unit counts, added as int64, to the total quantity
    of these lines; for a table in which every line has a category these
    are the metrics Total Items and System Qty. *)
Theorem X18_preview_totals (filtered_df : list audit_line)
        (entries : list (cell * nat * Z)) :
  report_preview filtered_df = Ok entries ->
  list_sum (map (fun e => snd (fst e)) entries)
  = List.length (filter has_category filtered_df)
  /\ wrap_int64 (fold_left Z.add (map snd entries) 0%Z)
     = total_qty (filter has_category filtered_df)
  /\ ((forall r, In r filtered_df -> Category r <> None) ->
      filter has_category filtered_df = filtered_df).
Proof.
  unfold report_preview, rmap.
  destruct (py_sorted _) as [cats|e] eqn:Hs; cbn [rbind]; [|discriminate].
  intros [= <-]. apply sorted_categories_cover in Hs.
  destruct Hs as [Hnd Hcov].
  assert (Hp : Permutation (List.concat (map (cat_rows filtered_df) cats))
                           (filter has_category filtered_df)).
  { apply cat_rows_partition; [exact Hnd|].
    intros r Hr _. apply Hcov. now exists r. }
  split; [|split].
  - rewrite map_map. cbn [preview_entry fst snd].
    rewrite <- (Permutation_length Hp), length_concat, map_map. reflexivity.
  - rewrite map_map. cbn [preview_entry snd].
    rewrite (map_ext _ (fun c => wrap_int64 (exact_total (cat_rows filtered_df c))))
      by (intros c; apply total_qty_wrap).
    rewrite <- (map_map (fun c => exact_total (cat_rows filtered_df c))
                        wrap_int64).
    rewrite wrap_int64_sum, total_qty_wrap, <- (exact_total_perm _ _ Hp),
      <- exact_total_concat, map_map. reflexivity.
  - intros H. clear -H. induction filtered_df as [|r df IH]; [reflexivity|].
    cbn [filter]. unfold has_category at 1.
    destruct (Category r) eqn:E.
    + cbn [isna_cell negb]. f_equal. apply IH. intros r' Hr'. apply H.
      now right.
    + exfalso. apply (H r); [now left | exact E].
Qed.

Lemma X18_preview_totals_witness :
  report_preview sample_two_categories
  = Ok [(Some "Flower", 1, 3%Z); (Some "Vape", 1, 8%Z)]
  /\ list_sum (map (fun e => snd (fst e))
                   [(Some "Flower", 1, 3%Z); (Some "Vape", 1, 8%Z)])
     = List.length (filter has_category sample_two_categories).
Proof.
  split; [vm_compute; reflexivity|].
  apply (X18_preview_totals sample_two_categories
           [(Some "Flower", 1, 3%Z); (Some "Vape", 1, 8%Z)]).
  vm_compute. reflexivity.
Defined.

Lemma StronglySorted_app {A} (R : A -> A -> Prop) (l1 l2 : list A) :
  StronglySorted R l1 -> StronglySorted R l2 ->
  (forall x y, In x l1 -> In y l2 -> R x y) ->
  StronglySorted R (l1 ++ l2).
Proof.
  induction 1 as [|x l1 Hs IH Hall]; intros H2 Hc; [exact H2|].
  cbn [app]. constructor.
  - apply IH; [exact H2|]. intros a b Ha Hb. apply Hc; [now right | exact Hb].
  - apply Forall_app. split; [exact Hall|].
    apply Forall_forall. intros y Hy. apply Hc; [now left | exact Hy].
Qed.

(** Two lists in strictly ascending order with the same elements. *)
Lemma strict_sorted_eq {A} (R : A -> A -> Prop) :
  (forall x y, R x y -> R y x -> False) ->
  forall l1 l2,
    StronglySorted R l1 -> StronglySorted R l2 ->
    (forall x, In x l1 <-> In x l2) -> l1 = l2.
Proof.
  intros Hasym. induction l1 as [|x l1 IH]; intros [|y l2] H1 H2 Hin.
  - reflexivity.
  - exfalso. apply (proj2 (Hin y)). now left.
  - exfalso. apply (proj1 (Hin x)). now left.
  - inversion H1 as [|? ? H1' Hall1]; subst.
    inversion H2 as [|? ? H2' Hall2]; subst.
    rewrite Forall_forall in Hall1, Hall2.
    assert (Exy : x = y).
    { destruct (proj1 (Hin x) (or_introl eq_refl)) as [E|Hx]; [now symmetry|].
      destruct (proj2 (Hin y) (or_introl eq_refl)) as [E|Hy]; [assumption|].
      exfalso. apply (Hasym x y); [apply Hall1 | apply Hall2]; assumption. }
    subst y. f_equal. apply IH; try assumption.
    intros z. split; intros Hz.
    + destruct (proj1 (Hin z) (or_intror Hz)) as [E|Hz']; [|assumption].
      subst z. exfalso. apply (Hasym x x); now apply Hall1.
    + destruct (proj2 (Hin z) (or_intror Hz)) as [E|Hz']; [|assumption].
      subst z. exfalso. apply (Hasym x x); now apply Hall2.
Qed.

Lemma key_lt_asym (a b : audit_line) : key_lt a b -> key_lt b a -> False.
Proof. unfold key_lt. intros H1 H2. now apply (cmp_lt_asym key_compare) in H1. Qed.

Lemma cat_rows_In (df : list audit_line) (c : cell) (r : audit_line) :
  In r (cat_rows df c) <-> In r df /\ Category r = c /\ c <> None.
Proof.
  unfold cat_rows. rewrite filter_In, eq_cell_true. split.
  - intros (Hr & x & E1 & E2). subst c. now rewrite E1.
  - intros (Hr & E & Hne). split; [exact Hr|].
    destruct c as [x|]; [|congruence]. now exists x.
Qed.

Lemma key_lt_of_category (a b : audit_line) :
  cell_lt (Category a) (Category b) -> key_lt a b.
Proof.
  unfold cell_lt, key_lt, key_of, key_compare, lex. now intros ->.
Qed.

(** The groups of ascending categories, one after the other, are in the
    order of the keys. *)
Lemma cat_rows_concat_sorted (df : list audit_line) (cats : list cell) :
  StronglySorted key_lt df -> StronglySorted cell_lt cats ->
  StronglySorted key_lt (List.concat (map (cat_rows df) cats)).
Proof.
  intros Hdf. induction 1 as [|c cats Hs IH Hall]; [constructor|].
  cbn [map List.concat]. apply StronglySorted_app.
  - unfold cat_rows. now apply StronglySorted_filter.
  - exact IH.
  - intros x y Hx Hy. apply cat_rows_In in Hx. destruct Hx as (_ & Ex & _).
    apply in_concat in Hy. destruct Hy as (l & Hl & Hy).
    apply in_map_iff in Hl. destruct Hl as (c' & <- & Hc').
    apply cat_rows_In in Hy. destruct Hy as (_ & Ey & _).
    apply key_lt_of_category. rewrite Ex, Ey.
    rewrite Forall_forall in Hall. now apply Hall.
Qed.

(** X19: for a table in ascending order of its keys, as the audit table
    and its filtered views are, the category tables of the document list
    the lines that have a category in the very order of the table. *)
Theorem X19_rows_in_table_order (df : list audit_line)
        (sc sb : list string) (page_size : string) (w : world)
        (doc : document) :
  StronglySorted key_lt df ->
  fst (generate_audit_pdf df sc sb page_size w) = Ok doc ->
  printed_rows (doc_elements doc) = map table_row (filter has_category df).
Proof.
  intros Hdf H. apply generate_Ok in H. destruct H as (cats & Hs & _ & He).
  pose proof (sorted_categories_cover df cats Hs) as [Hnd Hcov].
  apply py_sorted_Ok in Hs; [|apply (unique_NoDup cell_compare)].
  destruct Hs as [_ Hsorted].
  rewrite He, !printed_rows_app, printed_rows_sections.
  change (printed_rows title_block) with (@nil (list tcell)).
  change (printed_rows (metadata_of _ _ _ _ _)) with (@nil (list tcell)).
  change (printed_rows signature_block) with (@nil (list tcell)).
  cbn [app]. rewrite app_nil_r. f_equal.
  apply (strict_sorted_eq key_lt key_lt_asym).
  - now apply cat_rows_concat_sorted.
  - now apply StronglySorted_filter.
  - intros r. split; apply Permutation_in;
      [|symmetry]; apply cat_rows_partition; try exact Hnd;
      intros r' Hr' _; apply Hcov; now exists r'.
Qed.

Lemma X19_rows_in_table_order_witness :
  StronglySorted key_lt sample_two_categories
  /\ printed_rows (doc_elements sample_document)
     = map table_row (filter has_category sample_two_categories).
Proof.
  assert (Hs : StronglySorted key_lt sample_two_categories).
  { repeat constructor. }
  split; [exact Hs|].
  apply (X19_rows_in_table_order sample_two_categories ["All"] ["All"]
           "letter" (world_at sample_morning) sample_document Hs).
  vm_compute. reflexivity.
Defined.

(* ================================================================== *)
(** * Further properties of the validation *)

(** X20: a table that passes the validation has rows and holds each of
    the four columns the processing reads. *)
Theorem X20_validated_table (d : dataframe) (message : string) :
  validate_required_columns (Some d) = (true, message) ->
  (forall col, In col required_cols -> In col (df_columns d))
  /\ df_rows d <> []
  /\ message = "All required columns present".
Proof.
  cbn [validate_required_columns]. destruct (df_empty d) eqn:Ee;
    [discriminate|].
  destruct (missing_cols d) as [|m ms] eqn:Em; [|discriminate].
  intros [= <-]. split; [|split; [|reflexivity]].
  - intros col Hc. apply in_columns_In.
    destruct (in_columns col d) eqn:Ei; [reflexivity|].
    assert (Hm : In col (missing_cols d)).
    { apply missing_cols_spec. split; [exact Hc|].
      intros H. apply in_columns_In in H. congruence. }
    rewrite Em in Hm. destruct Hm.
  - intros E. unfold df_empty in Ee. rewrite E in Ee. cbn in Ee.
    now rewrite orb_true_r in Ee.
Qed.

Lemma X20_validated_table_witness :
  validate_required_columns
    (Some {| df_columns := "Location" :: rev required_cols;
             df_rows := [[VStr "A1"]] |})
  = (true, "All required columns present")
  /\ (forall col, In col required_cols ->
                  In col ("Location" :: rev required_cols)).
Proof.
  split; [reflexivity|].
  apply (X20_validated_table
           {| df_columns := "Location" :: rev required_cols;
              df_rows := [[VStr "A1"]] |} "All required columns present").
  reflexivity.
Defined.

(** X21: the verdict of the validation depends only on which columns the
    table has and on whether it has rows: further columns, the order of
    the columns and the contents of the rows do not change it. *)
Theorem X21_validation_ignores_order_and_rows (d1 d2 : dataframe) :
  (forall col, In col (df_columns d1) <-> In col (df_columns d2)) ->
  (df_rows d1 = [] <-> df_rows d2 = []) ->
  validate_required_columns (Some d1) = validate_required_columns (Some d2).
Proof.
  intros Hc Hr.
  assert (He : df_empty d1 = df_empty d2).
  { unfold df_empty. f_equal.
    - destruct (df_columns d1) as [|a l1], (df_columns d2) as [|b l2];
        try reflexivity; exfalso.
      + apply (proj2 (Hc b)). now left.
      + apply (proj1 (Hc a)). now left.
    - destruct (df_rows d1) as [|a l1], (df_rows d2) as [|b l2];
        try reflexivity; exfalso.
      + now discriminate (proj1 Hr eq_refl).
      + now discriminate (proj2 Hr eq_refl). }
  assert (Hm : missing_cols d1 = missing_cols d2).
  { unfold missing_cols. apply filter_ext. intros col. f_equal.
    destruct (in_columns col d1) eqn:E1, (in_columns col d2) eqn:E2;
      try reflexivity.
    - apply in_columns_In, Hc, in_columns_In in E1. congruence.
    - apply in_columns_In, Hc, in_columns_In in E2. congruence. }
  cbn [validate_required_columns]. now rewrite He, Hm.
Qed.

Lemma X21_validation_ignores_order_and_rows_witness :
  validate_required_columns
    (Some {| df_columns := ["Category"; "Location"];
             df_rows := [[VStr "Vape"; VStr "A1"]] |})
  = validate_required_columns
      (Some {| df_columns := ["Location"; "Category"; "Location"];
               df_rows := [[VStr "A1"; VStr "Flower"; VStr "A2"]; []] |}).
Proof.
  apply X21_validation_ignores_order_and_rows; cbn [df_columns df_rows In].
  - intros col. tauto.
  - split; discriminate.
Defined.
